(** * doc-suggester: the blog scraper (package main)

    A shallow embedding of the incremental archive builder: the page
    fetcher, the listing discoverer, the content extractor's date
    resolution, the clean-up pipeline, the bounded scraper, the checkpoint
    ledger and the archive writer, with the properties of the
    specification stated over them.

    Go strings are byte strings: [string] is used with one [ascii] per
    byte.  Maps are [gmap]s, the set of seen slugs is a [gset]. *)

From Stdlib Require Import String Ascii List Arith Lia Bool.
From Stdlib Require Import Numbers.DecimalString Numbers.DecimalNat.
From stdpp Require Import base option gmap strings list sets.

Local Open Scope string_scope.

(** ** Go's [strings] package, the functions the scraper calls *)

Module GoStrings.

Definition code (c : ascii) : nat := nat_of_ascii c.

(** The one-byte string. *)
Definition chr (n : nat) : string := String (ascii_of_nat n) EmptyString.

Definition isEmpty (s : string) : bool :=
  match s with EmptyString => true | String _ _ => false end.

(** [strings.HasPrefix] *)
Fixpoint HasPrefix (s p : string) : bool :=
  match p, s with
  | EmptyString, _ => true
  | String a p', String b s' => Ascii.eqb a b && HasPrefix s' p'
  | String _ _, EmptyString => false
  end.

Fixpoint dropPrefix (s p : string) : string :=
  match p, s with
  | String _ p', String _ s' => dropPrefix s' p'
  | _, _ => s
  end.

(** [strings.TrimPrefix]: [s] without the leading [p], or [s] itself. *)
Definition TrimPrefix (s p : string) : string :=
  if HasPrefix s p then dropPrefix s p else s.

(** [strings.Contains] *)
Fixpoint Contains (s sub : string) : bool :=
  HasPrefix s sub ||
  match s with
  | EmptyString => false
  | String _ s' => Contains s' sub
  end.

(** [c] is the byte [n]. *)
Definition byteIs (c : ascii) (n : nat) : bool := Nat.eqb (code c) n.

Definition between (lo : nat) (c : ascii) (hi : nat) : bool :=
  Nat.leb lo (code c) && Nat.leb (code c) hi.

(** The table [asciiSpace] of package strings: tab, newline, vertical
    tab, form feed, carriage return and space. *)
Definition asciiSpace (c : ascii) : bool :=
  byteIs c 9 || byteIs c 10 || byteIs c 11 || byteIs c 12 || byteIs c 13 || byteIs c 32.

(** [ws_head s] is the rest of [s] after one leading white-space rune
    ([unicode.IsSpace]), read in UTF-8: the six ASCII spaces, U+0085,
    U+00A0, U+1680, U+2000..U+200A, U+2028, U+2029, U+202F, U+205F and
    U+3000. *)
Definition ws_head (s : string) : option string :=
  match s with
  | EmptyString => None
  | String c r =>
      if asciiSpace c then Some r
      else
        match r with
        | EmptyString => None
        | String d r2 =>
            if byteIs c 194 && (byteIs d 133 || byteIs d 160) then Some r2
            else
              match r2 with
              | EmptyString => None
              | String e r3 =>
                  if byteIs c 225 && byteIs d 154 && byteIs e 128 then Some r3
                  else if byteIs c 226 && byteIs d 128 &&
                          (between 128 e 138 || byteIs e 168 || byteIs e 169 ||
                           byteIs e 175)
                  then Some r3
                  else if byteIs c 226 && byteIs d 129 && byteIs e 159 then Some r3
                  else if byteIs c 227 && byteIs d 128 && byteIs e 128 then Some r3
                  else None
              end
        end
  end.

Fixpoint trimLeft_fuel (n : nat) (s : string) : string :=
  match n with
  | O => s
  | S n' =>
      match ws_head s with
      | Some r => trimLeft_fuel n' r
      | None => s
      end
  end.

(** [strings.TrimLeftFunc(s, unicode.IsSpace)] *)
Definition trimLeft (s : string) : string :=
  trimLeft_fuel (String.length s) s.

Definition all_ws (s : string) : bool := isEmpty (trimLeft s).

(** [strings.TrimRightFunc(s, unicode.IsSpace)]: the longest suffix made
    of white-space runes is dropped. *)
Fixpoint trimRight (s : string) : string :=
  match s with
  | EmptyString => EmptyString
  | String c r => if all_ws s then EmptyString else String c (trimRight r)
  end.

(** [strings.TrimSpace] *)
Definition TrimSpace (s : string) : string := trimRight (trimLeft s).

End GoStrings.

Import GoStrings.

(** ** Go's [regexp] package, for the patterns of the scraper

    The patterns of the scraper use literals, character classes, the
    anchors [^] and [$], alternation, and repetition of a single character
    class (greedy but for one lazy [.*?]).  Go's engine returns the
    leftmost match and, at that position, the one a backtracking search finds
    first; [mt] is that search, written with a continuation.  [prev] is the
    byte before the current position, which is what [^] looks at. *)

Module Regexp.

Inductive re : Type :=
| Eps
| Cls (p : ascii -> bool)          (* one byte of a class *)
| Bot                              (* ^ without flag m: start of the text *)
| Bol                              (* ^ under flag m: start of a line *)
| Eot                              (* $ without flag m: end of the text *)
| Cat (r1 r2 : re)
| Alt (r1 r2 : re)
| Star (greedy : bool) (p : ascii -> bool).

Definition cont : Type := option ascii -> string -> option string.

Definition orElse (a b : option string) : option string :=
  match a with Some x => Some x | None => b end.

(** [p*]: as many bytes as possible first. *)
Fixpoint starG (p : ascii -> bool) (k : cont) (prev : option ascii)
    (s : string) : option string :=
  match s with
  | EmptyString => k prev s
  | String c s' =>
      if p c then orElse (starG p k (Some c) s') (k prev s) else k prev s
  end.

(** [p*?]: as few bytes as possible first. *)
Fixpoint starL (p : ascii -> bool) (k : cont) (prev : option ascii)
    (s : string) : option string :=
  orElse (k prev s)
    match s with
    | EmptyString => None
    | String c s' => if p c then starL p k (Some c) s' else None
    end.

Definition newline : ascii := ascii_of_nat 10.

Definition atLineStart (prev : option ascii) : bool :=
  match prev with
  | None => true
  | Some c => Ascii.eqb c newline
  end.

Fixpoint mt (r : re) (k : cont) (prev : option ascii) (s : string)
    : option string :=
  match r with
  | Eps => k prev s
  | Cls p =>
      match s with
      | String c s' => if p c then k (Some c) s' else None
      | EmptyString => None
      end
  | Bot => match prev with None => k prev s | Some _ => None end
  | Bol => if atLineStart prev then k prev s else None
  | Eot => if isEmpty s then k prev s else None
  | Cat r1 r2 => mt r1 (mt r2 k) prev s
  | Alt r1 r2 => orElse (mt r1 k prev s) (mt r2 k prev s)
  | Star true p => starG p k prev s
  | Star false p => starL p k prev s
  end.

(** The match that starts at the current position, if there is one: what
    is left of [s] after it. *)
Definition matchAt (r : re) (prev : option ascii) (s : string)
    : option string :=
  mt r (fun _ rest => Some rest) prev s.

(** Is there a match at some position of [s]? *)
Fixpoint matchFrom (r : re) (prev : option ascii) (s : string) : bool :=
  match matchAt r prev s with
  | Some _ => true
  | None =>
      match s with
      | EmptyString => false
      | String c s' => matchFrom r (Some c) s'
      end
  end.

(** [Regexp.MatchString] *)
Definition MatchString (r : re) (s : string) : bool := matchFrom r None s.

(** [Regexp.ReplaceAllString] for a replacement without [$]: the
    matches are searched from left to right, each starting where the one
    before ended.  [skip] counts the bytes of the current match still to
    be passed.  Every pattern below consumes at least one byte; a match
    of the empty string is copied through like a mismatch. *)
Fixpoint replaceFrom (r : re) (repl : string) (prev : option ascii)
    (skip : nat) (s : string) : string :=
  match s with
  | EmptyString => EmptyString
  | String c s' =>
      match skip with
      | S n => replaceFrom r repl (Some c) n s'
      | O =>
          match matchAt r prev s with
          | None => String c (replaceFrom r repl (Some c) 0 s')
          | Some rest =>
              match String.length s - String.length rest with
              | O => String c (replaceFrom r repl (Some c) 0 s')
              | S n => repl ++ replaceFrom r repl (Some c) n s'
              end
          end
      end
  end.

Definition ReplaceAllString (r : re) (s repl : string) : string :=
  replaceFrom r repl None 0 s.

(** Pattern builders. *)
Definition chr_is (c : ascii) : re := Cls (Ascii.eqb c).

Fixpoint lit (s : string) : re :=
  match s with
  | EmptyString => Eps
  | String c s' => Cat (chr_is c) (lit s')
  end.

Fixpoint cat (rs : list re) : re :=
  match rs with
  | [] => Eps
  | r :: rs' => Cat r (cat rs')
  end.

Fixpoint alt (r : re) (rs : list re) : re :=
  match rs with
  | [] => r
  | r' :: rs' => Alt r (alt r' rs')
  end.

Definition plus (p : ascii -> bool) : re := Cat (Cls p) (Star true p).

Definition anyByte (_ : ascii) : bool := true.
Definition isNewline (c : ascii) : bool := Ascii.eqb c newline.
Definition notNewline (c : ascii) : bool := negb (isNewline c).
(** [\d] *)
Definition digit (c : ascii) : bool := between 48 c 57.
(** [\s] is [[\t\n\f\r ]]: no vertical tab. *)
Definition perlSpace (c : ascii) : bool :=
  byteIs c 9 || byteIs c 10 || byteIs c 12 || byteIs c 13 || byteIs c 32.

End Regexp.

Import Regexp.

(** ** The scraper: constants and precompiled patterns *)

Definition baseURL : string := "https://chainguard.dev".
Definition unchainedURL : string := baseURL ++ "/unchained".
Definition workers : nat := 10.

Definition nl : string := String newline EmptyString.

(** [(?:January|February|...|December)] *)
Definition monthName : re :=
  alt (lit "January")
    [lit "February"; lit "March"; lit "April"; lit "May"; lit "June";
     lit "July"; lit "August"; lit "September"; lit "October";
     lit "November"; lit "December"].

(** [(?:months) \d{1,2}, \d{4}] *)
Definition longDate : re :=
  cat [monthName; lit " "; Cls digit; Alt (Cls digit) Eps; lit ", ";
       Cls digit; Cls digit; Cls digit; Cls digit].

(** [(?m)^\[All Articles\]\(/unchained\)\n+] *)
Definition reBreadcrumb : re :=
  cat [Bol; lit "[All Articles](/unchained)"; plus isNewline].

(** [(?m)^(?:months) \d{1,2}, \d{4}\n+] *)
Definition reDateLine : re := cat [Bol; longDate; plus isNewline].

(** [(?s)\nShare this article.*$] *)
Definition reShareFooter : re :=
  cat [Cls isNewline; lit "Share this article"; Star true anyByte; Eot].

(** [(?s)\nRelated articles\n.*$] *)
Definition reRelated : re :=
  cat [Cls isNewline; lit "Related articles"; Cls isNewline;
       Star true anyByte; Eot].

(** [(?s)\n## Want to learn more about Chainguard\?.*$] *)
Definition reWantMore : re :=
  cat [Cls isNewline; lit "## Want to learn more about Chainguard?";
       Star true anyByte; Eot].

(** [(?s)\nChainguard provides a secure foundation.*?\[Get in touch\][^\n]*\n] *)
Definition reCGCta : re :=
  cat [Cls isNewline; lit "Chainguard provides a secure foundation";
       Star false anyByte; lit "[Get in touch]"; Star true notNewline;
       Cls isNewline].

(** [\n_Ready to get started[^\n]*\n] *)
Definition reReadyStart : re :=
  cat [Cls isNewline; lit "_Ready to get started"; Star true notNewline;
       Cls isNewline].

(** [(?m)^!\[\]\(/_next/image\?url=[^\n]*\)\n] *)
Definition reNextImage : re :=
  cat [Bol; lit "![](/_next/image?url="; Star true notNewline; lit ")";
       Cls isNewline].

(** [\n{3,}] *)
Definition reExcessBlanks : re :=
  cat [Cls isNewline; Cls isNewline; Cls isNewline; Star true isNewline].

(** [^(?:months) \d{1,2}, \d{4}$] *)
Definition reDateText : re := cat [Bot; longDate; Eot].

(** The pattern compiled inside [cleanMarkdown]:
    [(?m)^# ] followed by the quoted title and [\s*\n+]. *)
Definition reH1 (title : string) : re :=
  cat [Bol; lit "# "; lit title; Star true perlSpace; plus isNewline].

(** ** Cleanup *)

Definition cleanMarkdown (raw title : string) : string :=
  let s := raw in
  let s := ReplaceAllString reBreadcrumb s EmptyString in
  let s := ReplaceAllString reDateLine s EmptyString in
  let s := ReplaceAllString (reH1 title) s EmptyString in
  let s := ReplaceAllString reShareFooter s EmptyString in
  let s := ReplaceAllString reRelated s EmptyString in
  let s := ReplaceAllString reWantMore s EmptyString in
  let s := ReplaceAllString reCGCta s EmptyString in
  let s := ReplaceAllString reReadyStart s EmptyString in
  let s := ReplaceAllString reNextImage s EmptyString in
  let s := ReplaceAllString reExcessBlanks s (nl ++ nl) in
  TrimSpace s.

(** The patterns of the ten replacement passes, in order. *)
Definition cleanupPatterns (title : string) : list re :=
  [reBreadcrumb; reDateLine; reH1 title; reShareFooter; reRelated;
   reWantMore; reCGCta; reReadyStart; reNextImage; reExcessBlanks].

(** ** Types *)

Record blogPost : Type := {
  Title : string;
  URL : string;
  Slug : string
}.

(** JSON names: title, url, date, scraped_at. *)
Record checkpointEntry : Type := {
  entryTitle : string;
  entryURL : string;
  entryDate : string;
  ScrapedAt : string
}.

(** [type checkpoint map[string]checkpointEntry] *)
Abbreviation checkpoint := (gmap string checkpointEntry).

(** A Go [error] is kept as its message; [None] is [nil]. *)
Abbreviation error := string (only parsing).

Record scrapeResult : Type := {
  slug : string;
  title : string;
  url : string;
  date : string;
  markdown : string;
  err : option error
}.

(** ** The world outside the program

    What one HTTP GET gives: no request could be built, the client
    returned an error and no response (connection refused, timeout,
    redirect loop), or a response arrived, with its status code, the
    bytes of the body read and the error of [io.ReadAll] if the body
    broke off. *)
Inductive httpOutcome : Type :=
| RequestError (e : error)
| TransportError (e : error)
| Response (status : nat) (body : string) (readErr : option error).

(** What the program reads from a parsed page through goquery.  The
    queries run in program order, the removal of nav, header, footer,
    script and style included; each field is the selection as the program
    sees it at its query. *)
Record anchor : Type := { href : string; text : string }.

Record timeElem : Type := { datetime : option string; timeText : string }.

Record document : Type := {
  anchors : list anchor;           (* a elements with an href, in order *)
  nextButtons : list bool;         (* button[aria-label=Go to next page]:
                                      has each the attribute disabled? *)
  h1s : list string;               (* Text() of the h1 elements *)
  region : string -> option string;(* Html() of the first element of a
                                      selector, nav and co. removed *)
  bodyHtml : string;               (* the same for body *)
  times : list timeElem;           (* the time elements *)
  textNodes : list string          (* Text() of each p, div and span *)
}.

Record env : Type := {
  http : string -> httpOutcome;
  (* goquery.NewDocumentFromReader(strings.NewReader(html)) *)
  NewDocument : string -> document + error;
  (* mdConverter.ConvertString *)
  ConvertString : string -> string + error;
  (* json.MarshalIndent(cp, "", "  ") and json.Unmarshal(data, &cp): the
     map as far as it was filled, and the error *)
  MarshalIndent : checkpoint -> string;
  Unmarshal : string -> checkpoint * option error;
  (* time.Now().UTC().Format(time.RFC3339) *)
  now : string;
  (* the order in which the workers' results arrive on the channel *)
  arrival : list scrapeResult -> list scrapeResult
}.

(** ** HTTP *)

Definition fetchPage (e : env) (u : string) : string * option error :=
  match http e u with
  | RequestError msg => (EmptyString, Some msg)
  | TransportError msg => (EmptyString, Some msg)
  | Response _ body readErr => (body, readErr)
  end.

(** ** Listing *)

(** [%d] *)
Definition dec (n : nat) : string := NilEmpty.string_of_uint (Nat.to_uint n).

Definition pageURL (page : nat) : string :=
  if Nat.ltb 1 page then unchainedURL ++ "?page=" ++ dec page
  else unchainedURL.

(** [doc.Find(`a[href^="/unchained/"]`)] *)
Definition articleLinks (doc : document) : list anchor :=
  List.filter (fun a => HasPrefix (href a) "/unchained/") (anchors doc).

(** The body of the [Each] callback; [seen] is the map used as a set. *)
Definition visitLink (st : list blogPost * gset string) (a : anchor)
    : list blogPost * gset string :=
  let '(posts, seen) := st in
  if String.eqb (href a) "/unchained" || Contains (href a) "/category/"
  then st
  else
    let sl := TrimPrefix (href a) "/unchained/" in
    if isEmpty sl || Contains sl "?" || bool_decide (sl ∈ seen)
    then st
    else
      let seen := {[sl]} ∪ seen in
      let ttl := TrimSpace (text a) in
      let ttl := if isEmpty ttl then sl else ttl in
      ((posts ++ [{| Title := ttl; URL := baseURL ++ href a; Slug := sl |}])%list,
       seen).

Inductive loopEnd : Type :=
| Done                    (* break: no next page *)
| Failed (e : error)      (* return posts, err *)
| Unfinished.             (* the fuel of the model ran out *)

(** The [for page := 1; ; page++] loop, from [page] on. *)
Fixpoint listingLoop (e : env) (fuel page : nat)
    (st : list blogPost * gset string) : list blogPost * loopEnd :=
  match fuel with
  | O => (st.1, Unfinished)
  | S fuel' =>
      match fetchPage e (pageURL page) with
      | (_, Some msg) =>
          (st.1, Failed ("page " ++ dec page ++ ": " ++ msg))
      | (html, None) =>
          match NewDocument e html with
          | inr msg => (st.1, Failed msg)
          | inl doc =>
              let st' := foldl visitLink st (articleLinks doc) in
              match nextButtons doc with
              | [] => (st'.1, Done)
              | disabled :: _ =>
                  if disabled then (st'.1, Done)
                  else listingLoop e fuel' (S page) st'
              end
          end
      end
  end.

Definition getAllBlogLinks (e : env) (fuel : nat) : list blogPost * loopEnd :=
  listingLoop e fuel 1 ([], ∅).

(** ** Scraping *)

Definition articleSelectors : list string :=
  ["article"; ".post-content"; ".blog-content"; ".article-content"; "main";
   "[role=" ++ chr 34 ++ "main" ++ chr 34 ++ "]"].

(** Package [time], for the one layout pair the scraper uses. *)
Module GoTime.

Definition isLeap (year : nat) : bool :=
  Nat.eqb (year mod 4) 0 &&
  (negb (Nat.eqb (year mod 100) 0) || Nat.eqb (year mod 400) 0).

Definition daysIn (month year : nat) : nat :=
  match month with
  | 2 => if isLeap year then 29 else 28
  | 4 | 6 | 9 | 11 => 30
  | _ => 31
  end.

Definition digitVal (c : ascii) : option nat :=
  if digit c then Some (code c - 48) else None.

Definition num2 (a b : ascii) : option nat :=
  match digitVal a, digitVal b with
  | Some x, Some y => Some (10 * x + y)
  | _, _ => None
  end.

Definition isDash (c : ascii) : bool := byteIs c 45.

(** [time.Parse("2006-01-02", s)]: four digits, a dash, two digits, a
    dash, two digits and nothing else; the month is in 1..12 and the day
    exists in that month of that year.  The result is year, month, day. *)
Definition parseDate (s : string) : option (nat * nat * nat) :=
  match list_ascii_of_string s with
  | [y1; y2; y3; y4; s1; m1; m2; s2; d1; d2] =>
      match num2 y1 y2, num2 y3 y4, num2 m1 m2, num2 d1 d2 with
      | Some yh, Some yl, Some m, Some d =>
          let y := 100 * yh + yl in
          if isDash s1 && isDash s2 && Nat.leb 1 m && Nat.leb m 12 &&
             Nat.leb 1 d && Nat.leb d (daysIn m y)
          then Some (y, m, d)
          else None
      | _, _, _, _ => None
      end
  | _ => None
  end.

Definition longMonthNames : list string :=
  ["January"; "February"; "March"; "April"; "May"; "June"; "July";
   "August"; "September"; "October"; "November"; "December"].

(** [appendInt(b, year, 4)]: at least four digits. *)
Definition pad4 (y : nat) : string :=
  (if Nat.ltb y 10 then "000"
   else if Nat.ltb y 100 then "00"
   else if Nat.ltb y 1000 then "0"
   else EmptyString) ++ dec y.

(** [t.Format("January 2, 2006")] *)
Definition formatLong (ymd : nat * nat * nat) : string :=
  let '(y, m, d) := ymd in
  nth (m - 1) longMonthNames EmptyString ++ " " ++ dec d ++ ", " ++ pad4 y.

End GoTime.

Import GoTime.

(** The [EachWithBreak] over p, div and span: the first text that, trimmed,
    is a long-form date. *)
Fixpoint scanDate (texts : list string) : string :=
  match texts with
  | [] => EmptyString
  | t :: rest =>
      let t' := TrimSpace t in
      if MatchString reDateText t' then t' else scanDate rest
  end.

(** The publish date of [downloadAndConvertPost] (the block that starts
    at [date := ""]). *)
Definition extractDate (doc : document) : string :=
  let d :=
    match times doc with
    | [] => EmptyString
    | t :: _ =>
        match datetime t with
        | Some dt =>
            if negb (isEmpty dt) then
              match parseDate dt with
              | Some parsed => formatLong parsed
              | None => dt
              end
            else TrimSpace (timeText t)
        | None => TrimSpace (timeText t)
        end
    end in
  if isEmpty d then scanDate (textNodes doc) else d.

(** The loop over [articleSelectors]: the first region of more than 100
    bytes. *)
Fixpoint pickRegion (doc : document) (sels : list string) : string :=
  match sels with
  | [] => EmptyString
  | sel :: rest =>
      match region doc sel with
      | None => pickRegion doc rest
      | Some h => if Nat.ltb 100 (String.length h) then h else pickRegion doc rest
      end
  end.

Definition failure (post : blogPost) (msg : error) : scrapeResult :=
  {| slug := Slug post; title := EmptyString; url := EmptyString;
     date := EmptyString; markdown := EmptyString; err := Some msg |}.

Definition downloadAndConvertPost (e : env) (post : blogPost) : scrapeResult :=
  match fetchPage e (URL post) with
  | (_, Some msg) => failure post msg
  | (html, None) =>
      match NewDocument e html with
      | inr msg => failure post msg
      | inl doc =>
          let h1 := TrimSpace (hd EmptyString (h1s doc)) in
          let ttl := if isEmpty h1 then Title post else h1 in
          let contentHTML := pickRegion doc articleSelectors in
          let contentHTML :=
            if isEmpty contentHTML then bodyHtml doc else contentHTML in
          let d := extractDate doc in
          match ConvertString e contentHTML with
          | inr msg => failure post msg
          | inl rawMD =>
              {| slug := Slug post; title := ttl; url := URL post; date := d;
                 markdown := cleanMarkdown rawMD ttl; err := None |}
          end
      end
  end.

(** The aggregating loop [for r := range ch]. *)
Definition collect (out : gmap string scrapeResult) (r : scrapeResult)
    : gmap string scrapeResult :=
  match err r with
  | None => <[slug r := r]> out
  | Some _ => out
  end.

(** Every post gets its own task, whatever the others return; the results
    come back in the order [arrival e] and are collected by one loop. *)
Definition scrapeAll (e : env) (posts : list blogPost)
    : gmap string scrapeResult :=
  foldl collect ∅ (arrival e (map (downloadAndConvertPost e) posts)).

(** ** Output *)

Definition formatPost (r : scrapeResult) : string :=
  let sb := "## " ++ title r ++ nl ++ nl in
  let sb :=
    if negb (isEmpty (date r))
    then sb ++ "*Source: " ++ url r ++ " | " ++ date r ++ "*" ++ nl ++ nl
    else sb ++ "*Source: " ++ url r ++ "*" ++ nl ++ nl in
  let sb := sb ++ markdown r in
  sb ++ nl ++ nl ++ "---" ++ nl ++ nl.

(** ** Checkpoint *)

(** The two files under the output directory; [None]: the file does not
    exist (or, for the checkpoint, cannot be read).  The directory is
    taken to be writable. *)
Record fsState : Type := {
  checkpointFile : option string;
  archiveFile : option string
}.

Definition loadCheckpoint (e : env) (fs : fsState) : checkpoint :=
  match checkpointFile fs with
  | None => ∅
  | Some data => (Unmarshal e data).1
  end.

(** [os.WriteFile] opens the file with O_WRONLY|O_CREATE|O_TRUNC, writes
    the bytes and closes it.  These are the contents the file goes through:
    the old ones, then, once opened, each prefix of [data] from the empty
    one to [data] itself. *)
Fixpoint prefixes (s : string) : list string :=
  match s with
  | EmptyString => [EmptyString]
  | String c s' => EmptyString :: map (String c) (prefixes s')
  end.

Definition WriteFile_states (old : option string) (data : string)
    : list (option string) :=
  old :: map Some (prefixes data).

Definition WriteFile (old : option string) (data : string) : option string :=
  default old (last (WriteFile_states old data)).

Definition saveCheckpoint (e : env) (cp : checkpoint) (fs : fsState) : fsState :=
  {| checkpointFile := WriteFile (checkpointFile fs) (MarshalIndent e cp);
     archiveFile := archiveFile fs |}.

(** The states of the files a crash during [saveCheckpoint] can leave. *)
Definition saveCheckpoint_states (e : env) (cp : checkpoint) (fs : fsState)
    : list fsState :=
  map (fun c => {| checkpointFile := c; archiveFile := archiveFile fs |})
      (WriteFile_states (checkpointFile fs) (MarshalIndent e cp)).

(** ** Main *)

(** Lines "On -force, ignore the checkpoint ...": the posts to scrape and
    the ledger the run goes on with. *)
Definition selectToScrape (force : bool) (cp : checkpoint)
    (allPosts : list blogPost) : list blogPost * checkpoint :=
  if force then (allPosts, ∅)
  else
    (foldl (fun toScrape p =>
              match cp !! Slug p with
              | Some _ => toScrape
              | None => (toScrape ++ [p])%list
              end) [] allPosts,
     cp).

Definition entryOf (stamp : string) (r : scrapeResult) : checkpointEntry :=
  {| entryTitle := title r; entryURL := url r; entryDate := date r;
     ScrapedAt := stamp |}.

(** [for slug, r := range scraped { cp[slug] = ... }] *)
Definition updateCheckpoint (stamp : string)
    (scraped : gmap string scrapeResult) (cp : checkpoint) : checkpoint :=
  map_fold (fun sl r acc => <[sl := entryOf stamp r]> acc) cp scraped.

(** The sections the writing loop emits: for each post of the listing, in
    order, the result of this run if there is one. *)
Definition sectionsOf (allPosts : list blogPost)
    (scraped : gmap string scrapeResult) : list scrapeResult :=
  omap (fun p => scraped !! Slug p) allPosts.

Definition writeSections (start : string) (rs : list scrapeResult) : string :=
  foldl (fun f r => f ++ formatPost r) start rs.

Definition archiveHeader : string :=
  "# Unchained Blog Archive" ++ nl ++ nl ++
  "*Articles from [chainguard.dev/unchained](https://chainguard.dev/unchained)*"
  ++ nl ++ nl ++ "---" ++ nl ++ nl.

Inductive exitStatus : Type :=
| Exit0
| Fatal (msg : string)      (* log.Fatal: exit status 1 *)
| NoExit.                   (* the listing never ends *)

(** What one run did. *)
Record run : Type := {
  exit : exitStatus;
  files : fsState;                  (* the files when the process ends *)
  discovered : list blogPost;       (* allPosts *)
  selected : list blogPost;         (* toScrape *)
  articleFetches : list string;     (* the article URLs given to fetchPage *)
  ledger : checkpoint;              (* cp when the process ends *)
  rebuilt : bool;                   (* the archive was created anew *)
  sections : list scrapeResult      (* the sections written by this run *)
}.

Definition stopped (st : exitStatus) (fs : fsState) (cp : checkpoint)
    (allPosts toScrape : list blogPost) : run :=
  {| exit := st; files := fs; discovered := allPosts; selected := toScrape;
     articleFetches := []; ledger := cp; rebuilt := false; sections := [] |}.

Definition main (e : env) (fuel : nat) (force : bool) (fs : fsState) : run :=
  let cp := loadCheckpoint e fs in
  match getAllBlogLinks e fuel with
  | (allPosts, Unfinished) => stopped NoExit fs cp allPosts []
  | (allPosts, Failed msg) => stopped (Fatal ("listing: " ++ msg)) fs cp allPosts []
  | (allPosts, Done) =>
      if Nat.eqb (List.length allPosts) 0
      then stopped (Fatal "no posts found") fs cp allPosts []
      else
        let '(toScrape, cp) := selectToScrape force cp allPosts in
        if Nat.eqb (List.length toScrape) 0
        then stopped Exit0 fs cp allPosts toScrape
        else
          let scraped := scrapeAll e toScrape in
          let cp := updateCheckpoint (now e) scraped cp in
          let fs := saveCheckpoint e cp fs in
          let rebuild := force || negb (bool_decide (is_Some (archiveFile fs))) in
          let out := sectionsOf allPosts scraped in
          let start :=
            if rebuild then archiveHeader
            else default EmptyString (archiveFile fs) in
          {| exit := Exit0;
             files := {| checkpointFile := checkpointFile fs;
                         archiveFile := Some (writeSections start out) |};
             discovered := allPosts; selected := toScrape;
             articleFetches := map URL toScrape;
             ledger := cp; rebuilt := rebuild; sections := out |}
  end.

(** ** A small site, for the examples

    Two listing pages and three articles.  The pages are told apart by
    their body; the ledger is stored one field per line, which stands in
    for JSON on strings that have no newline. *)

Module Demo.

Definition link (h t : string) : anchor := {| href := h; text := t |}.

Definition page (links : list anchor) (next : list bool) : document :=
  {| anchors := links; nextButtons := next; h1s := [];
     region := fun _ => None; bodyHtml := EmptyString; times := [];
     textNodes := [] |}.

Definition page1 : document :=
  page [link "/unchained/post-a" " Post A ";
        link "/about" "About";
        link "/unchained/category/news" "News";
        link "/unchained/post-b" " ";
        link "/unchained/post-a" "Post A again";
        link "/unchained/" "Blog";
        link "/unchained/post-c?utm=1" "Post C"]
       [false].

Definition page2 : document :=
  page [link "/unchained/post-b" "Post B"; link "/unchained/post-c" "Post C"]
       [true].

Definition article (html : string) : document :=
  {| anchors := []; nextButtons := []; h1s := [];
     region := fun _ => None; bodyHtml := html; times := [];
     textNodes := [] |}.

Definition parse (html : string) : document + error :=
  if String.eqb html "listing-1" then inl page1
  else if String.eqb html "listing-2" then inl page2
  else inl (article html).

Fixpoint splitLines (s cur : string) : list string :=
  match s with
  | EmptyString => []
  | String c s' =>
      if isNewline c then cur :: splitLines s' EmptyString
      else splitLines s' (cur ++ String c EmptyString)
  end.

Fixpoint decode (ls : list string) : checkpoint :=
  match ls with
  | sl :: t :: u :: d :: st :: rest =>
      <[sl := {| entryTitle := t; entryURL := u; entryDate := d;
                 ScrapedAt := st |}]> (decode rest)
  | _ => ∅
  end.

Definition encode (cp : checkpoint) : string :=
  foldr (fun kv acc =>
           kv.1 ++ nl ++ entryTitle kv.2 ++ nl ++ entryURL kv.2 ++ nl ++
           entryDate kv.2 ++ nl ++ ScrapedAt kv.2 ++ nl ++ acc)
        EmptyString (map_to_list cp).

Fixpoint lookupURL (tbl : list (string * httpOutcome)) (u : string)
    : httpOutcome :=
  match tbl with
  | [] => TransportError "no such host"
  | (k, v) :: tbl' => if String.eqb k u then v else lookupURL tbl' u
  end.

Definition world (tbl : list (string * httpOutcome)) : env :=
  {| http := lookupURL tbl;
     NewDocument := parse;
     ConvertString := inl;
     MarshalIndent := encode;
     Unmarshal := fun data => (decode (splitLines data EmptyString), None);
     now := "2026-01-01T00:00:00Z";
     arrival := @rev scrapeResult |}.

Definition ok (body : string) : httpOutcome := Response 200 body None.

Definition articleURL (sl : string) : string :=
  baseURL ++ "/unchained/" ++ sl.

(** Every page answers; post-b answers 404 with an error page. *)
Definition site : list (string * httpOutcome) :=
  [(unchainedURL, ok "listing-1");
   (unchainedURL ++ "?page=2", ok "listing-2");
   (articleURL "post-a", ok ("# Post A" ++ nl ++ "text of a"));
   (articleURL "post-b", Response 404 "not found" None);
   (articleURL "post-c", ok "text of c")].

(** The second listing page cannot be fetched. *)
Definition sitePage2Down : list (string * httpOutcome) :=
  (unchainedURL ++ "?page=2", TransportError "timeout") :: site.

(** post-c ends in a redirect loop: the client returns an error. *)
Definition sitePostCDown : list (string * httpOutcome) :=
  (articleURL "post-c", TransportError "stopped after 10 redirects") :: site.

Definition noFiles : fsState :=
  {| checkpointFile := None; archiveFile := None |}.

Definition entryA : checkpointEntry :=
  {| entryTitle := "Post A"; entryURL := articleURL "post-a";
     entryDate := EmptyString; ScrapedAt := "2025-12-01T00:00:00Z" |}.

Definition post (sl : string) : blogPost :=
  {| Title := sl; URL := articleURL sl; Slug := sl |}.

(** An article page with one time element and one paragraph. *)
Definition dated (attr : option string) (txt para : string) : document :=
  {| anchors := []; nextButtons := []; h1s := [];
     region := fun _ => None; bodyHtml := para;
     times := [{| datetime := attr; timeText := txt |}];
     textNodes := [para] |}.

(** The ledger a run starts from and the one it saves, in the example of
    an interrupted save. *)
Definition ledgerA : checkpoint := {[ "post-a" := entryA ]}.

Definition ledgerAB : checkpoint :=
  <[ "post-b" := {| entryTitle := "Post B"; entryURL := articleURL "post-b";
                    entryDate := "March 3, 2024";
                    ScrapedAt := "2026-01-01T00:00:00Z" |} ]> ledgerA.

End Demo.

(** ** Reading the listing page by page (used to state what the loop
    returns) *)

(** The parsed listing page [page], when it can be fetched and parsed. *)
Definition pageDoc (e : env) (page : nat) : option document :=
  match fetchPage e (pageURL page) with
  | (_, Some _) => None
  | (html, None) =>
      match NewDocument e html with
      | inl doc => Some doc
      | inr _ => None
      end
  end.

(** Page [page] is there and its next-page button is enabled. *)
Definition continues (e : env) (page : nat) : Prop :=
  exists doc rest, pageDoc e page = Some doc /\ nextButtons doc = false :: rest.

(** The posts and slugs after the [n] pages from [page] on. *)
Fixpoint gather (e : env) (n page : nat) (st : list blogPost * gset string)
    : list blogPost * gset string :=
  match n with
  | O => st
  | S n' =>
      match pageDoc e page with
      | Some doc => gather e n' (S page) (foldl visitLink st (articleLinks doc))
      | None => st
      end
  end.

(** The run once the listing is read: nothing to do, or scrape, save the
    ledger and write the archive. *)
Definition proceed (e : env) (force : bool) (fs : fsState)
    (allPosts toScrape : list blogPost) (cp' : checkpoint) : run :=
  match toScrape with
  | [] => stopped Exit0 fs cp' allPosts []
  | _ :: _ =>
      let scraped := scrapeAll e toScrape in
      let cp'' := updateCheckpoint (now e) scraped cp' in
      let rebuild := force || negb (bool_decide (is_Some (archiveFile fs))) in
      let out := sectionsOf allPosts scraped in
      {| exit := Exit0;
         files :=
           {| checkpointFile := Some (MarshalIndent e cp'');
              archiveFile :=
                Some (writeSections
                        (if rebuild then archiveHeader
                         else default EmptyString (archiveFile fs)) out) |};
         discovered := allPosts; selected := toScrape;
         articleFetches := map URL toScrape;
         ledger := cp''; rebuilt := rebuild; sections := out |}
  end.

(** What the loop keeps true of the posts found and the slugs seen. *)
Definition listingInv (st : list blogPost * gset string) : Prop :=
  NoDup (Slug <$> st.1) /\
  (forall sl, sl ∈ st.2 <-> sl ∈ Slug <$> st.1) /\
  Forall (fun p => Slug p <> EmptyString /\ Contains (Slug p) "?" = false) st.1.

(** Posts of the shape the discoverer builds. *)
Definition wellFormedPost (p : blogPost) : Prop :=
  URL p = baseURL ++ "/unchained/" ++ Slug p /\ Title p <> EmptyString.


(** Runs of newlines, to state what the blank-line pass leaves: the
    number of newlines a string starts with, the string after them, and
    the strings without three newlines in a row. *)
Fixpoint leadingNewlines (s : string) : nat :=
  match s with
  | EmptyString => 0
  | String c s' => if isNewline c then S (leadingNewlines s') else 0
  end.

Fixpoint dropNewlines (s : string) : string :=
  match s with
  | EmptyString => EmptyString
  | String c s' => if isNewline c then dropNewlines s' else s
  end.

Fixpoint noTripleNewline (s : string) : bool :=
  match s with
  | EmptyString => true
  | String c s' => Nat.ltb (leadingNewlines s) 3 && noTripleNewline s'
  end.


(** A string of exactly four decimal digits, and one of one or two. *)
Definition isYear4 (s : string) : bool :=
  match s with
  | String a (String b (String c (String d EmptyString))) =>
      digit a && digit b && digit c && digit d
  | _ => false
  end.

Definition isDay (s : string) : bool :=
  match s with
  | String a EmptyString => digit a
  | String a (String b EmptyString) => digit a && digit b
  | _ => false
  end.

(** [pad4 y], from the digits of [y] with the last digit first. *)
Definition pad4_of (y : nat) (lu : Decimal.uint) : string :=
  (if Nat.ltb y 10 then "000"
   else if Nat.ltb y 100 then "00"
   else if Nat.ltb y 1000 then "0"
   else EmptyString) ++ NilEmpty.string_of_uint (Decimal.rev lu).

(** Are the [k] years from [y] on written with four digits? *)
Fixpoint yearsOK (k y : nat) (lu : Decimal.uint) : bool :=
  match k with
  | O => true
  | S k' => isYear4 (pad4_of y lu) && yearsOK k' (S y) (Decimal.Little.succ lu)
  end.

(** * Properties *)

Lemma isEmpty_true (s : string) : isEmpty s = true <-> s = EmptyString.
Proof. destruct s; simpl; split; congruence. Qed.

Lemma isEmpty_false (s : string) : isEmpty s = false <-> s <> EmptyString.
Proof. destruct s; simpl; split; congruence. Qed.

(** ** The page fetcher *)

Lemma fetchPage_response (e : env) (u : string) status body readErr :
  http e u = Response status body readErr -> fetchPage e u = (body, readErr).
Proof. unfold fetchPage. intros ->. reflexivity. Qed.

(** C10: a response that arrived is a success whatever its status code.
    When the GET of [u] yields a response with status [status] (404 and
    500 included) whose body [body] is read to the end, [fetchPage] returns
    [body] and a nil error; and for a post at that URL the page is
    extracted like any article: if the body parses and converts, the scrape
    result has no error and its Markdown is the cleaned conversion. *)
Theorem fetchPage_any_status_is_success (e : env) (u : string)
    (status : nat) (body : string) :
  http e u = Response status body None ->
  fetchPage e u = (body, None) /\
  forall (post : blogPost) (doc : document),
    URL post = u ->
    NewDocument e body = inl doc ->
    forall html md,
      html = (if isEmpty (pickRegion doc articleSelectors) then bodyHtml doc
              else pickRegion doc articleSelectors) ->
      ConvertString e html = inl md ->
      let r := downloadAndConvertPost e post in
      err r = None /\ slug r = Slug post /\
      exists ttl, title r = ttl /\ markdown r = cleanMarkdown md ttl.
Proof.
  intros Hresp. split; [by eapply fetchPage_response|].
  intros post doc Hu Hdoc html md -> Hconv. subst u.
  unfold downloadAndConvertPost.
  rewrite (fetchPage_response _ _ _ _ _ Hresp), Hdoc. cbn zeta.
  rewrite Hconv. cbn. eauto.
Qed.

Lemma fetchPage_any_status_is_success_witness :
  fetchPage (Demo.world Demo.site) (Demo.articleURL "post-b")
    = ("not found", None) /\
  err (downloadAndConvertPost (Demo.world Demo.site) (Demo.post "post-b"))
    = None.
Proof.
  pose proof (fetchPage_any_status_is_success (Demo.world Demo.site)
                (Demo.articleURL "post-b") 404 "not found" eq_refl) as [H1 H2].
  split; [exact H1|].
  exact (proj1 (H2 (Demo.post "post-b") (Demo.article "not found") eq_refl
                  eq_refl "not found" "not found" eq_refl eq_refl)).
Defined.

(** ** Choosing what to scrape *)

Lemma select_loop_filter (cp : checkpoint) (allPosts acc : list blogPost) :
  foldl (fun toScrape p =>
           match cp !! Slug p with
           | Some _ => toScrape
           | None => (toScrape ++ [p])%list
           end) acc allPosts
  = (acc ++ filter (fun p => Slug p ∉ dom cp) allPosts)%list.
Proof.
  revert acc. induction allPosts as [|p ps IH]; intros acc; simpl.
  - by rewrite app_nil_r.
  - rewrite IH.
    destruct (cp !! Slug p) as [x|] eqn:Hp.
    + rewrite filter_cons_False; [done|].
      intros Hn. apply Hn, elem_of_dom. eauto.
    + rewrite filter_cons_True by (by apply not_elem_of_dom).
      by rewrite <- app_assoc.
Qed.

Lemma selectToScrape_incremental (cp : checkpoint) (allPosts : list blogPost) :
  selectToScrape false cp allPosts
  = (filter (fun p => Slug p ∉ dom cp) allPosts, cp).
Proof.
  unfold selectToScrape. f_equal. apply (select_loop_filter cp allPosts []).
Qed.

Lemma main_selected (e : env) (fuel : nat) (force : bool) (fs : fsState) :
  let r := main e fuel force fs in
  selected r = [] \/
  selected r = (selectToScrape force (loadCheckpoint e fs) (discovered r)).1.
Proof.
  unfold main.
  destruct (getAllBlogLinks e fuel) as [allPosts [|msg|]]; cbn; auto.
  destruct (Nat.eqb (List.length allPosts) 0); cbn; auto.
  destruct (selectToScrape force (loadCheckpoint e fs) allPosts)
    as [toScrape cp'] eqn:Hsel.
  destruct (Nat.eqb (List.length toScrape) 0); cbn; rewrite ?Hsel; auto.
Qed.

(** C2: the merge rule.  Without the force flag the posts selected are
    the discovered posts whose slug is not in the ledger, in listing order
    (so no checkpointed slug is scraped again), and the ledger is kept; with
    the flag every discovered post is selected and the run goes on with an
    empty ledger.  [main] selects nothing or exactly this.  With post-a in
    the ledger and the listing post-a, post-b, post-b alone is selected. *)
Theorem selectToScrape_merge_rule (cp : checkpoint) (allPosts : list blogPost) :
  (selectToScrape false cp allPosts).1
    = filter (fun p => Slug p ∉ dom cp) allPosts /\
  (selectToScrape false cp allPosts).2 = cp /\
  (forall p, p ∈ (selectToScrape false cp allPosts).1 <->
             p ∈ allPosts /\ Slug p ∉ dom cp) /\
  selectToScrape true cp allPosts = (allPosts, ∅) /\
  (forall e fuel force fs,
     let r := main e fuel force fs in
     selected r = [] \/
     selected r
       = (selectToScrape force (loadCheckpoint e fs) (discovered r)).1) /\
  (selectToScrape false {[ "post-a" := Demo.entryA ]}
     [Demo.post "post-a"; Demo.post "post-b"]).1 = [Demo.post "post-b"].
Proof.
  rewrite selectToScrape_incremental. cbn [fst snd].
  split; [reflexivity|]. split; [reflexivity|]. split.
  { intros p. rewrite list_elem_of_filter. tauto. }
  split; [reflexivity|]. split; [apply main_selected|].
  vm_compute. reflexivity.
Qed.

(** ** The listing discoverer *)

Lemma listingInv_start : listingInv ([], ∅).
Proof.
  repeat split; simpl; try constructor; try set_solver.
Qed.

Lemma visitLink_inv (st : list blogPost * gset string) (a : anchor) :
  listingInv st -> listingInv (visitLink st a).
Proof.
  destruct st as [posts seen]. intros Hinv.
  pose proof Hinv as (Hnd & Hseen & Hall).
  unfold visitLink.
  destruct (String.eqb (href a) "/unchained" || Contains (href a) "/category/");
    [exact Hinv|].
  set (sl := TrimPrefix (href a) "/unchained/").
  destruct (isEmpty sl) eqn:He; [exact Hinv|].
  destruct (Contains sl "?") eqn:Hq; [exact Hinv|].
  destruct (bool_decide (sl ∈ seen)) eqn:Hs; [exact Hinv|].
  apply bool_decide_eq_false in Hs. cbn in *.
  split; [|split]; cbn.
  - rewrite fmap_app. apply NoDup_app. split; [done|]. split; [|apply NoDup_singleton].
    intros x Hx Hx'. apply list_elem_of_singleton in Hx'. subst x.
    by apply Hs, Hseen.
  - intros x. rewrite fmap_app, elem_of_app, elem_of_union, elem_of_singleton.
    cbn. rewrite list_elem_of_singleton, Hseen. tauto.
  - apply Forall_app. split; [done|]. constructor; [|constructor]. cbn.
    split; [by apply isEmpty_false|done].
Qed.

Lemma visitLinks_inv (links : list anchor) (st : list blogPost * gset string) :
  listingInv st -> listingInv (foldl visitLink st links).
Proof.
  revert st. induction links as [|a links IH]; intros st Hst; simpl; [done|].
  apply IH. by apply visitLink_inv.
Qed.

Lemma listingLoop_inv (e : env) (fuel page : nat)
    (st : list blogPost * gset string) :
  listingInv st ->
  NoDup (Slug <$> (listingLoop e fuel page st).1) /\
  Forall (fun p => Slug p <> EmptyString /\ Contains (Slug p) "?" = false)
         (listingLoop e fuel page st).1.
Proof.
  revert page st. induction fuel as [|fuel IH]; intros page st Hst; simpl.
  - destruct Hst as (? & _ & ?). done.
  - destruct (fetchPage e (pageURL page)) as [html [msg|]].
    { destruct Hst as (? & _ & ?). done. }
    destruct (NewDocument e html) as [doc|msg].
    2:{ destruct Hst as (? & _ & ?). done. }
    pose proof (visitLinks_inv (articleLinks doc) st Hst) as Hst'.
    destruct (nextButtons doc) as [|[|] ?]; cbn.
    + destruct Hst' as (? & _ & ?). done.
    + destruct Hst' as (? & _ & ?). done.
    + by apply IH.
Qed.

(** C8: the posts of one discovery pass have pairwise distinct slugs, none
    of them empty (and none with a question mark), however the pass ends:
    normally, on a failed page, or never. *)
Theorem getAllBlogLinks_slugs_unique (e : env) (fuel : nat) :
  NoDup (Slug <$> (getAllBlogLinks e fuel).1) /\
  Forall (fun p => Slug p <> EmptyString) (getAllBlogLinks e fuel).1 /\
  Forall (fun p => Contains (Slug p) "?" = false) (getAllBlogLinks e fuel).1.
Proof.
  destruct (listingLoop_inv e fuel 1 ([], ∅) listingInv_start) as [Hnd Hall].
  split; [exact Hnd|].
  unfold getAllBlogLinks.
  split; eapply Forall_impl; try exact Hall; cbn; tauto.
Qed.

Lemma listingLoop_continue (e : env) (fuel page : nat)
    (st : list blogPost * gset string) :
  continues e page ->
  exists doc, pageDoc e page = Some doc /\
    listingLoop e (S fuel) page st
    = listingLoop e fuel (S page) (foldl visitLink st (articleLinks doc)).
Proof.
  intros (doc & rest & Hdoc & Hnext). exists doc. split; [done|].
  unfold pageDoc in Hdoc. simpl.
  destruct (fetchPage e (pageURL page)) as [html [msg|]]; [done|].
  destruct (NewDocument e html) as [doc'|msg]; [|done].
  injection Hdoc as ->. by rewrite Hnext.
Qed.

(** Enough fuel gives the result: when some page is the last one (it
    fails, or has no enabled next-page button), the loop ends there. *)
Lemma listingLoop_stops (e : env) (n : nat) :
  forall page st fuel,
    (forall i, i < n -> continues e (page + i)) ->
    ~ continues e (page + n) ->
    n < fuel ->
    (listingLoop e fuel page st).2 <> Unfinished.
Proof.
  induction n as [|n IH]; intros page st fuel Hgo Hstop Hfuel.
  - destruct fuel as [|fuel]; [lia|]. rewrite Nat.add_0_r in Hstop.
    simpl. unfold continues, pageDoc in Hstop.
    destruct (fetchPage e (pageURL page)) as [html [msg|]]; [done|].
    destruct (NewDocument e html) as [doc|msg]; [|done].
    destruct (nextButtons doc) as [|[|] rest] eqn:Hn; [done|done|].
    exfalso. apply Hstop. eauto.
  - destruct fuel as [|fuel]; [lia|].
    destruct (listingLoop_continue e fuel page st) as (doc & _ & ->).
    { specialize (Hgo 0 ltac:(lia)). by rewrite Nat.add_0_r in Hgo. }
    apply IH; [|by replace (S page + n) with (page + S n) by lia|lia].
    intros i Hi. replace (S page + i) with (page + S i) by lia. apply Hgo. lia.
Qed.

Lemma listingLoop_fails (e : env) (n : nat) :
  forall page st fuel msg,
    (forall i, i < n -> continues e (page + i)) ->
    (fetchPage e (pageURL (page + n))).2 = Some msg ->
    n < fuel ->
    listingLoop e fuel page st
    = ((gather e n page st).1,
       Failed ("page " ++ dec (page + n) ++ ": " ++ msg)).
Proof.
  induction n as [|n IH]; intros page st fuel msg Hgo Hfail Hfuel.
  - destruct fuel as [|fuel]; [lia|]. rewrite Nat.add_0_r in *. simpl.
    destruct (fetchPage e (pageURL page)) as [html [msg'|]]; [|done].
    cbn in Hfail. by injection Hfail as ->.
  - destruct fuel as [|fuel]; [lia|].
    destruct (listingLoop_continue e fuel page st) as (doc & Hdoc & ->).
    { specialize (Hgo 0 ltac:(lia)). by rewrite Nat.add_0_r in Hgo. }
    cbn [gather]. rewrite Hdoc.
    replace (page + S n) with (S page + n) in * by lia.
    apply IH; [|done|lia].
    intros i Hi. replace (S page + i) with (page + S i) by lia. apply Hgo. lia.
Qed.

(** The discovery pass returns: with more fuel than the number of the
    last page, it does not end as [Unfinished]. *)
Lemma getAllBlogLinks_returns (e : env) (n fuel : nat) :
  (forall i, i < n -> continues e (1 + i)) ->
  ~ continues e (1 + n) ->
  n < fuel ->
  (getAllBlogLinks e fuel).2 <> Unfinished.
Proof. apply listingLoop_stops. Qed.

(** C1, as the code has it: when the pages before page [n + 1] were read
    and had an enabled next-page button and page [n + 1] cannot be fetched,
    [getAllBlogLinks] returns the posts gathered from the [n] pages before
    it together with an error, and [main] takes that error as fatal
    whatever the page: the run ends with a non-zero status, no article is
    fetched and no file is written. *)
Theorem listing_error_is_fatal_on_any_page (e : env) (fuel n : nat)
    (force : bool) (fs : fsState) (msg : string) :
  (forall i, i < n -> continues e (1 + i)) ->
  (fetchPage e (pageURL (1 + n))).2 = Some msg ->
  n < fuel ->
  getAllBlogLinks e fuel
    = ((gather e n 1 ([], ∅)).1,
       Failed ("page " ++ dec (1 + n) ++ ": " ++ msg)) /\
  let r := main e fuel force fs in
  exit r = Fatal ("listing: page " ++ dec (1 + n) ++ ": " ++ msg) /\
  files r = fs /\ articleFetches r = [] /\ selected r = [] /\
  sections r = [].
Proof.
  intros Hgo Hfail Hfuel.
  pose proof (listingLoop_fails e n 1 ([], ∅) fuel msg Hgo Hfail Hfuel) as H.
  split; [exact H|].
  unfold main. fold (getAllBlogLinks e fuel) in H. rewrite H. cbn. done.
Qed.

Lemma listing_error_is_fatal_on_any_page_witness :
  let e := Demo.world Demo.sitePage2Down in
  getAllBlogLinks e 5
    = ([{| Title := "Post A"; URL := Demo.articleURL "post-a";
           Slug := "post-a" |}; Demo.post "post-b"],
       Failed "page 2: timeout") /\
  exit (main e 5 false Demo.noFiles) = Fatal "listing: page 2: timeout".
Proof.
  pose proof (listing_error_is_fatal_on_any_page
                (Demo.world Demo.sitePage2Down) 5 1 false Demo.noFiles
                "timeout") as H.
  destruct H as [H1 [H2 _]].
  - intros i Hi. assert (i = 0) as -> by lia.
    exists Demo.page1, []. split; reflexivity.
  - reflexivity.
  - lia.
  - split; [exact H1 | exact H2].
Defined.

(** C1 as stated fails: page 1 of the listing is fetched, page 2 times
    out; two posts are in hand, yet the run ends with a fatal error before
    any article is fetched or any file written. *)
Lemma later_page_error_aborts_run :
  let e := Demo.world Demo.sitePage2Down in
  let r := main e 5 false Demo.noFiles in
  (fetchPage e (pageURL 1)).2 = None /\
  (fetchPage e (pageURL 2)).2 = Some "timeout" /\
  Slug <$> (getAllBlogLinks e 5).1 = ["post-a"; "post-b"] /\
  exit r = Fatal "listing: page 2: timeout" /\
  exit r <> Exit0 /\
  articleFetches r = [] /\
  files r = Demo.noFiles.
Proof. vm_compute. repeat split; discriminate. Qed.

(** ** The scraper and the ledger *)

Lemma collect_dom (rs : list scrapeResult) (out : gmap string scrapeResult)
    (sl : string) :
  sl ∈ dom (foldl collect out rs) <->
  sl ∈ dom out \/ exists r, r ∈ rs /\ err r = None /\ slug r = sl.
Proof.
  revert out. induction rs as [|r rs IH]; intros out; simpl.
  - split; [auto|]. intros [?|(r & Hr & _)]; [done|]. by apply elem_of_nil in Hr.
  - rewrite IH. unfold collect. split.
    + intros [Hd|(r' & Hr' & He & Hs)].
      * destruct (err r) eqn:Her; [auto|].
        apply elem_of_dom in Hd. destruct (decide (slug r = sl)) as [<-|Hne].
        -- right. exists r. split; [left|done].
        -- rewrite lookup_insert_ne in Hd by done. left. by apply elem_of_dom.
      * right. exists r'. split; [by right|done].
    + intros [Hd|(r' & Hr' & He & Hs)].
      * left. destruct (err r); [done|]. rewrite dom_insert, elem_of_union. auto.
      * apply elem_of_cons in Hr' as [->|Hr'].
        -- left. rewrite He, dom_insert, Hs, elem_of_union, elem_of_singleton.
           auto.
        -- right. eauto.
Qed.

Lemma collect_lookup (rs : list scrapeResult) (out : gmap string scrapeResult)
    (sl : string) (r : scrapeResult) :
  foldl collect out rs !! sl = Some r ->
  out !! sl = Some r \/ (r ∈ rs /\ err r = None /\ slug r = sl).
Proof.
  revert out. induction rs as [|r' rs IH]; intros out; simpl; [auto|].
  intros H. apply IH in H as [H|(? & ? & ?)].
  - unfold collect in H. destruct (err r') eqn:He; [auto|].
    destruct (decide (slug r' = sl)) as [<-|Hne].
    + rewrite lookup_insert_eq in H. injection H as ->. right.
      split; [left|done].
    + rewrite lookup_insert_ne in H by done. auto.
  - right. split; [by right|done].
Qed.

Lemma download_slug (e : env) (p : blogPost) :
  slug (downloadAndConvertPost e p) = Slug p.
Proof.
  unfold downloadAndConvertPost.
  destruct (fetchPage e (URL p)) as [html [msg|]]; [done|].
  destruct (NewDocument e html) as [doc|msg]; [|done]. cbn zeta.
  by destruct (ConvertString e _).
Qed.

Section ScrapeAll.
Context (e : env).
Hypothesis arrival_perm : forall l, arrival e l ≡ₚ l.

Lemma scrapeAll_dom (posts : list blogPost) (sl : string) :
  sl ∈ dom (scrapeAll e posts) <->
  exists p, p ∈ posts /\ Slug p = sl /\
            err (downloadAndConvertPost e p) = None.
Proof.
  unfold scrapeAll. rewrite collect_dom, dom_empty. split.
  - intros [H|(r & Hr & He & Hs)]; [set_solver|].
    rewrite arrival_perm in Hr. apply list_elem_of_fmap in Hr as (p & -> & Hp).
    exists p. by rewrite download_slug in Hs.
  - intros (p & Hp & Hs & He). right.
    exists (downloadAndConvertPost e p). rewrite arrival_perm.
    split; [|by rewrite download_slug].
    apply list_elem_of_fmap. eauto.
Qed.

Lemma scrapeAll_lookup (posts : list blogPost) (sl : string)
    (r : scrapeResult) :
  scrapeAll e posts !! sl = Some r ->
  err r = None /\ slug r = sl /\
  exists p, p ∈ posts /\ r = downloadAndConvertPost e p.
Proof.
  unfold scrapeAll. intros H. apply collect_lookup in H as [H|(Hr & He & Hs)].
  - by rewrite lookup_empty in H.
  - rewrite arrival_perm in Hr.
    apply list_elem_of_fmap in Hr as (p & -> & Hp). eauto.
Qed.

Lemma scrapeAll_nil : scrapeAll e [] = ∅.
Proof.
  unfold scrapeAll. simpl.
  pose proof (arrival_perm []) as H. apply Permutation_nil_r in H.
  by rewrite H.
Qed.
End ScrapeAll.

Lemma updateCheckpoint_lookup (stamp : string)
    (scraped : gmap string scrapeResult) (cp : checkpoint) (sl : string) :
  updateCheckpoint stamp scraped cp !! sl
  = match scraped !! sl with
    | Some r => Some (entryOf stamp r)
    | None => cp !! sl
    end.
Proof.
  unfold updateCheckpoint.
  apply (map_fold_weak_ind
           (fun acc m => acc !! sl = match m !! sl with
                                     | Some r => Some (entryOf stamp r)
                                     | None => cp !! sl
                                     end)).
  - by rewrite lookup_empty.
  - intros i x m acc Hi IH.
    destruct (decide (i = sl)) as [->|Hne].
    + by rewrite !lookup_insert_eq.
    + by rewrite !lookup_insert_ne.
Qed.

Lemma updateCheckpoint_dom (stamp : string)
    (scraped : gmap string scrapeResult) (cp : checkpoint) :
  dom (updateCheckpoint stamp scraped cp) = dom scraped ∪ dom cp.
Proof.
  apply set_eq. intros sl.
  rewrite elem_of_union, !elem_of_dom, updateCheckpoint_lookup.
  destruct (scraped !! sl); split; try done; eauto.
  - intros [[? ?]|?]; done.
Qed.

(** ** Runs of [main] *)

Lemma main_not_done (e : env) (fuel : nat) (force : bool) (fs : fsState) :
  (getAllBlogLinks e fuel).2 <> Done ->
  exists st, st <> Exit0 /\
    main e fuel force fs
    = stopped st fs (loadCheckpoint e fs) (getAllBlogLinks e fuel).1 [].
Proof.
  unfold main. destruct (getAllBlogLinks e fuel) as [allPosts [|msg|]]; cbn.
  - done.
  - intros _. eexists. split; [|reflexivity]. done.
  - intros _. eexists. split; [|reflexivity]. done.
Qed.

Lemma last_prefixes (data : string) : last (prefixes data) = Some data.
Proof.
  induction data as [|c data IH]; [done|].
  cbn [prefixes]. rewrite last_cons.
  change (map (String c) (prefixes data)) with (String c <$> prefixes data).
  by rewrite fmap_last, IH.
Qed.

Lemma WriteFile_final (old : option string) (data : string) :
  WriteFile old data = Some data.
Proof.
  unfold WriteFile, WriteFile_states. rewrite last_cons.
  change (map Some (prefixes data)) with (Some <$> prefixes data).
  by rewrite fmap_last, last_prefixes.
Qed.

Lemma main_done (e : env) (fuel : nat) (force : bool) (fs : fsState)
    (allPosts : list blogPost) :
  getAllBlogLinks e fuel = (allPosts, Done) ->
  allPosts <> [] ->
  main e fuel force fs
  = proceed e force fs allPosts
      (selectToScrape force (loadCheckpoint e fs) allPosts).1
      (selectToScrape force (loadCheckpoint e fs) allPosts).2.
Proof.
  intros Hd Hne. unfold main. rewrite Hd.
  destruct allPosts as [|p0 ps]; [done|]. cbn [List.length Nat.eqb].
  destruct (selectToScrape force (loadCheckpoint e fs) (p0 :: ps))
    as [toScrape cp'].
  cbn [fst snd]. destruct toScrape as [|q qs]; [reflexivity|].
  cbn [List.length Nat.eqb proceed]. cbn [saveCheckpoint archiveFile checkpointFile].
  by rewrite WriteFile_final.
Qed.

Lemma same_slug_same_post (l : list blogPost) (p q : blogPost) :
  NoDup (Slug <$> l) -> p ∈ l -> q ∈ l -> Slug p = Slug q -> p = q.
Proof.
  induction l as [|x l IH]; intros Hnd Hp Hq Heq.
  - by apply elem_of_nil in Hp.
  - rewrite fmap_cons in Hnd. apply NoDup_cons in Hnd as [Hx Hnd].
    apply elem_of_cons in Hp as [->|Hp]; apply elem_of_cons in Hq as [->|Hq].
    + done.
    + exfalso. apply Hx. rewrite Heq. apply list_elem_of_fmap. eauto.
    + exfalso. apply Hx. rewrite <- Heq. apply list_elem_of_fmap. eauto.
    + by apply IH.
Qed.

Lemma selectToScrape_elem (force : bool) (cp : checkpoint)
    (allPosts : list blogPost) (p : blogPost) :
  p ∈ (selectToScrape force cp allPosts).1 ->
  p ∈ allPosts /\ Slug p ∉ dom (selectToScrape force cp allPosts).2.
Proof.
  destruct force.
  - cbn. intros Hp. split; [done|]. rewrite dom_empty_L. apply not_elem_of_empty.
  - rewrite selectToScrape_incremental. cbn. rewrite list_elem_of_filter. tauto.
Qed.

Lemma discovered_done (e : env) (fuel : nat) (force : bool) (fs : fsState) :
  let r := main e fuel force fs in
  selected r <> [] ->
  NoDup (Slug <$> discovered r) /\
  r = proceed e force fs (discovered r)
        (selectToScrape force (loadCheckpoint e fs) (discovered r)).1
        (selectToScrape force (loadCheckpoint e fs) (discovered r)).2.
Proof.
  cbn zeta. intros Hsel.
  pose proof (listingLoop_inv e fuel 1 ([], ∅) listingInv_start) as [Hnd _].
  fold (getAllBlogLinks e fuel) in Hnd.
  destruct (getAllBlogLinks e fuel) as [allPosts fin] eqn:Hg.
  assert (fin = Done \/ fin <> Done) as [->|Hfin]
    by (destruct fin; auto; right; discriminate).
  - destruct allPosts as [|p0 ps].
    { exfalso. apply Hsel. unfold main. by rewrite Hg. }
    rewrite (main_done e fuel force fs _ Hg) in * by done.
    assert (discovered (proceed e force fs (p0 :: ps)
             (selectToScrape force (loadCheckpoint e fs) (p0 :: ps)).1
             (selectToScrape force (loadCheckpoint e fs) (p0 :: ps)).2)
            = p0 :: ps) as Hd.
    { unfold proceed. by destruct (selectToScrape _ _ _).1. }
    rewrite Hd. done.
  - exfalso. apply Hsel.
    destruct (main_not_done e fuel force fs) as (st & _ & ->); [by rewrite Hg|].
    done.
Qed.

(** C4: [scrapeAll] keeps the successes and nothing else.  Whatever the
    order in which the results arrive, the mapping returned has exactly the
    slugs of the posts whose scrape returned no error, each stored result
    has a nil error and sits under its own slug, so a failure neither enters
    the mapping nor keeps a success out of it.  In a run of [main], a
    selected post whose scrape failed is not in the ledger when the run ends,
    and a later run without the force flag that starts from that ledger and
    discovers the post again selects it again. *)
Theorem scrapeAll_keeps_successes_only (e : env) :
  (forall l, Permutation (arrival e l) l) ->
  (forall posts,
     (forall sl, sl ∈ dom (scrapeAll e posts) <->
                 exists p, p ∈ posts /\ Slug p = sl /\
                           err (downloadAndConvertPost e p) = None) /\
     (forall sl r, scrapeAll e posts !! sl = Some r ->
                   err r = None /\ slug r = sl)) /\
  (forall fuel force fs p,
     let r := main e fuel force fs in
     p ∈ selected r ->
     err (downloadAndConvertPost e p) <> None ->
     (Slug p ∉ dom (ledger r)) /\
     forall e' fuel' fs',
       loadCheckpoint e' fs' = ledger r ->
       (getAllBlogLinks e' fuel').2 = Done ->
       p ∈ (getAllBlogLinks e' fuel').1 ->
       p ∈ selected (main e' fuel' false fs')).
Proof.
  intros Hperm. split.
  { intros posts. split.
    - intros sl. by apply scrapeAll_dom.
    - intros sl r H. apply (scrapeAll_lookup e Hperm) in H. tauto. }
  intros fuel force fs p r Hp Hfail.
  assert (Slug p ∉ dom (ledger r)) as Hout.
  { subst r. destruct (discovered_done e fuel force fs) as [Hnd Hr].
    { intros H. rewrite H in Hp. by apply elem_of_nil in Hp. }
    set (allPosts := discovered (main e fuel force fs)) in *.
    rewrite Hr in Hp |- *. unfold proceed in *.
    pose proof (selectToScrape_elem force (loadCheckpoint e fs) allPosts) as Hs.
    destruct (selectToScrape force (loadCheckpoint e fs) allPosts)
      as [toScrape cp']. cbn [fst snd] in *.
    destruct toScrape as [|q qs] eqn:Hts; [by apply elem_of_nil in Hp|].
    rewrite <- Hts in *. cbn [ledger selected] in *.
    rewrite updateCheckpoint_dom, elem_of_union.
    intros [Hin|Hin]; [|by apply (Hs p Hp)].
    apply (scrapeAll_dom e Hperm) in Hin as (p' & Hp' & Hslug & Hok).
    assert (p' = p) as ->; [|done].
    apply (same_slug_same_post allPosts); [done| | |done].
    + by apply Hs. + by apply Hs. }
  split; [exact Hout|].
  intros e' fuel' fs' Hload Hdone Hdisc.
  destruct (getAllBlogLinks e' fuel') as [allPosts' fin] eqn:Hg.
  cbn in Hdone, Hdisc. subst fin.
  rewrite (main_done e' fuel' false fs' allPosts' Hg).
  2:{ intros ->. by apply elem_of_nil in Hdisc. }
  rewrite Hload, selectToScrape_incremental. cbn [fst snd].
  assert (p ∈ filter (fun p0 => Slug p0 ∉ dom (ledger r)) allPosts') as Hsel.
  { by apply list_elem_of_filter. }
  unfold proceed. destruct (filter _ allPosts'); [done|]. exact Hsel.
Qed.

Lemma scrapeAll_keeps_successes_only_witness :
  let e := Demo.world Demo.sitePostCDown in
  (forall l, Permutation (arrival e l) l) /\
  "post-c" ∉ dom (ledger (main e 5 false Demo.noFiles)).
Proof.
  assert (forall l, Permutation (arrival (Demo.world Demo.sitePostCDown) l) l)
    as Hperm.
  { intros l. cbn. symmetry. apply Permutation_rev. }
  split; [exact Hperm|].
  pose proof (scrapeAll_keeps_successes_only
                (Demo.world Demo.sitePostCDown) Hperm) as [_ H].
  refine (proj1 (H 5 false Demo.noFiles
                   {| Title := "Post C"; URL := Demo.articleURL "post-c";
                      Slug := "post-c" |} _ _)).
  - apply list_elem_of_In. vm_compute. auto 6.
  - vm_compute. discriminate.
Defined.

Lemma main_exit0 (e : env) (fuel : nat) (force : bool) (fs : fsState) :
  exit (main e fuel force fs) = Exit0 ->
  exists allPosts,
    getAllBlogLinks e fuel = (allPosts, Done) /\ allPosts <> [].
Proof.
  intros Hexit.
  destruct (getAllBlogLinks e fuel) as [allPosts fin] eqn:Hg.
  assert (fin = Done \/ fin <> Done) as [->|Hfin]
    by (destruct fin; auto; right; discriminate).
  - exists allPosts. split; [done|]. intros ->.
    unfold main in Hexit. by rewrite Hg in Hexit.
  - destruct (main_not_done e fuel force fs) as (st & Hst & Hm);
      [by rewrite Hg|].
    rewrite Hm in Hexit. done.
Qed.

Lemma sections_slugs (allPosts toScrape : list blogPost)
    (e : env) (sl : string) :
  (forall l, Permutation (arrival e l) l) ->
  toScrape ⊆ allPosts ->
  sl ∈ slug <$> sectionsOf allPosts (scrapeAll e toScrape) <->
  sl ∈ dom (scrapeAll e toScrape).
Proof.
  intros Hperm Hsub. unfold sectionsOf.
  rewrite list_elem_of_fmap. split.
  - intros (r & -> & Hr). apply list_elem_of_omap in Hr as (p & Hp & Hl).
    pose proof (scrapeAll_lookup e Hperm _ _ _ Hl) as (_ & -> & _).
    apply elem_of_dom. eauto.
  - intros Hd. pose proof Hd as Hd'.
    apply (scrapeAll_dom e Hperm) in Hd as (p & Hp & <- & _).
    apply elem_of_dom in Hd' as [r Hr]. exists r.
    pose proof (scrapeAll_lookup e Hperm _ _ _ Hr) as (_ & Hs & _).
    split; [done|]. apply list_elem_of_omap. exists p. split; [|done].
    by apply Hsub.
Qed.

(** With the force flag the rebuilt archive and the ledger agree: a slug
    is in the ledger exactly when the archive has its section. *)
Lemma force_rebuild_consistent (e : env) (fuel : nat) (fs : fsState)
    (sl : string) :
  (forall l, Permutation (arrival e l) l) ->
  let r := main e fuel true fs in
  exit r = Exit0 ->
  rebuilt r = true /\
  (sl ∈ dom (ledger r) <-> sl ∈ slug <$> sections r).
Proof.
  intros Hperm r Hexit. subst r.
  destruct (main_exit0 _ _ _ _ Hexit) as (allPosts & Hg & Hne).
  rewrite (main_done e fuel true fs allPosts Hg Hne). cbn [selectToScrape fst snd].
  unfold proceed. destruct allPosts as [|p0 ps] eqn:Hall; [done|].
  rewrite <- Hall. cbn [rebuilt ledger sections orb].
  split; [done|].
  rewrite sections_slugs by done.
  by rewrite updateCheckpoint_dom, dom_empty_L, union_empty_r_L.
Qed.

(** C3 fails on the code when the archive file is gone but the checkpoint
    file is not: the run without the force flag rebuilds the archive, the
    ledger holds post-a (from the checkpoint file), post-b and post-c, and
    the archive written has the sections of post-b and post-c only. *)
Theorem rebuild_after_archive_loss_drops_sections :
  let e := Demo.world Demo.site in
  let fs := {| checkpointFile :=
                 Some (Demo.encode {[ "post-a" := Demo.entryA ]});
               archiveFile := None |} in
  let r := main e 5 false fs in
  exit r = Exit0 /\ rebuilt r = true /\
  dom (ledger r) = list_to_set ["post-a"; "post-b"; "post-c"] /\
  slug <$> sections r = ["post-b"; "post-c"] /\
  ("post-a" ∈ dom (ledger r)) /\ ("post-a" ∉ slug <$> sections r).
Proof.
  cbn zeta.
  set (r := main _ _ _ _).
  assert (slug <$> sections r = ["post-b"; "post-c"]) as Hs
    by (vm_compute; reflexivity).
  assert (dom (ledger r) = list_to_set ["post-a"; "post-b"; "post-c"]) as Hl
    by (vm_compute; reflexivity).
  assert (exit r = Exit0) as He by (vm_compute; reflexivity).
  assert (rebuilt r = true) as Hr by (vm_compute; reflexivity).
  clearbody r.
  split; [exact He|]. split; [exact Hr|].
  split; [exact Hl|]. split; [exact Hs|]. split.
  - rewrite Hl, elem_of_list_to_set. left.
  - rewrite Hs, !elem_of_cons, elem_of_nil. intros [?|[?|[]]]; discriminate.
Qed.

(** ** Two runs in a row *)

Lemma filter_iff_in {A} (P1 P2 : A -> Prop)
    `{!forall x, Decision (P1 x), !forall x, Decision (P2 x)} (l : list A) :
  (forall x, x ∈ l -> (P1 x <-> P2 x)) -> filter P1 l = filter P2 l.
Proof.
  induction l as [|a l IH]; intros Hiff; [done|].
  rewrite !filter_cons, IH by (intros x Hx; apply Hiff; by right).
  pose proof (Hiff a ltac:(left)) as Ha.
  destruct (decide (P1 a)), (decide (P2 a)); tauto.
Qed.

Lemma proceed_facts (e : env) (force : bool) (fs : fsState)
    (allPosts toScrape : list blogPost) (cp' : checkpoint) :
  (forall l, Permutation (arrival e l) l) ->
  let r := proceed e force fs allPosts toScrape cp' in
  selected r = toScrape /\
  articleFetches r = URL <$> toScrape /\
  ledger r = updateCheckpoint (now e) (scrapeAll e toScrape) cp' /\
  checkpointFile (files r)
  = match toScrape with
    | [] => checkpointFile fs
    | _ :: _ => Some (MarshalIndent e (ledger r))
    end.
Proof.
  intros Hperm. unfold proceed. destruct toScrape as [|q qs]; cbn.
  - rewrite scrapeAll_nil by done. by unfold updateCheckpoint; rewrite map_fold_empty.
  - done.
Qed.

Lemma scrapeAll_all_failed (e : env) (posts : list blogPost) :
  (forall l, Permutation (arrival e l) l) ->
  Forall (fun p => is_Some (err (downloadAndConvertPost e p))) posts ->
  scrapeAll e posts = ∅.
Proof.
  intros Hperm Hall. apply dom_empty_inv_L, set_eq. intros sl.
  rewrite (scrapeAll_dom e Hperm). split; [|by intros ?%elem_of_empty].
  intros (p & Hp & _ & Hok). rewrite Forall_forall in Hall.
  destruct (Hall p Hp) as [x Hx]. congruence.
Qed.

(** C6, as the code has it.  Two runs without the force flag on an
    unchanged site, the second starting from the files the first left,
    with the ledger read back as it was saved: the second run fetches
    exactly the articles whose scrape failed in the first run, so none when
    every scrape succeeded, and it leaves the ledger and the checkpoint
    file as the first run left them. *)
Theorem second_run_retries_failures_only (e : env) (fuel : nat) (fs : fsState) :
  (forall l, Permutation (arrival e l) l) ->
  let r1 := main e fuel false fs in
  exit r1 = Exit0 ->
  loadCheckpoint e (files r1) = ledger r1 ->
  let r2 := main e fuel false (files r1) in
  selected r2
    = filter (fun p => is_Some (err (downloadAndConvertPost e p)))
             (selected r1) /\
  articleFetches r2 = URL <$> selected r2 /\
  ledger r2 = ledger r1 /\
  checkpointFile (files r2) = checkpointFile (files r1) /\
  (Forall (fun p => err (downloadAndConvertPost e p) = None) (selected r1) ->
   articleFetches r2 = []).
Proof.
  intros Hperm r1 Hexit Hload r2.
  destruct (main_exit0 _ _ _ _ Hexit) as (allPosts & Hg & Hne).
  pose proof (listingLoop_inv e fuel 1 ([], ∅) listingInv_start) as [Hnd _].
  fold (getAllBlogLinks e fuel) in Hnd. rewrite Hg in Hnd. cbn [fst] in Hnd.
  subst r2. rewrite (main_done e fuel false (files r1) allPosts Hg Hne).
  rewrite Hload, selectToScrape_incremental. cbn [fst snd].
  subst r1. rewrite (main_done e fuel false fs allPosts Hg Hne) in *.
  rewrite selectToScrape_incremental in *. cbn [fst snd] in *.
  set (cp := loadCheckpoint e fs) in *.
  set (T1 := filter (fun p => Slug p ∉ dom cp) allPosts) in *.
  set (r1 := proceed e false fs allPosts T1 cp) in *.
  destruct (proceed_facts e false fs allPosts T1 cp Hperm)
    as (Hsel1 & _ & Hled1 & Hfile1). fold r1 in Hsel1, Hled1, Hfile1.
  set (T2 := filter (fun p => Slug p ∉ dom (ledger r1)) allPosts).
  destruct (proceed_facts e false (files r1) allPosts T2 (ledger r1) Hperm)
    as (Hsel2 & Hfetch2 & Hled2 & Hfile2).
  set (r2 := proceed e false (files r1) allPosts T2 (ledger r1)) in *.
  assert (T2 = filter (fun p => is_Some (err (downloadAndConvertPost e p))) T1)
    as HT2.
  { unfold T2, T1. rewrite list_filter_filter. apply filter_iff_in.
    intros p Hp. rewrite Hled1, updateCheckpoint_dom, not_elem_of_union.
    rewrite (scrapeAll_dom e Hperm). split.
    - intros [Hns Hcp]. split; [|done].
      destruct (err (downloadAndConvertPost e p)) eqn:He; [eauto|].
      exfalso. apply Hns. exists p. split; [|done].
      apply list_elem_of_filter. done.
    - intros [[x Hx] Hcp]. split; [|done].
      intros (p' & Hp' & Hslug & Hok).
      apply list_elem_of_filter in Hp' as [_ Hp'].
      assert (p' = p) as -> by (by apply (same_slug_same_post allPosts)).
      congruence. }
  assert (scrapeAll e T2 = ∅) as Hnone.
  { apply scrapeAll_all_failed; [done|]. rewrite HT2.
    apply Forall_forall. intros p Hp. by apply list_elem_of_filter in Hp as [? _]. }
  assert (ledger r2 = ledger r1) as Hsame.
  { rewrite Hled2, Hnone. unfold updateCheckpoint. by rewrite map_fold_empty. }
  split; [by rewrite Hsel2, Hsel1|]. split; [by rewrite Hsel2|].
  split; [exact Hsame|]. split.
  - rewrite Hfile2. destruct T2 as [|q qs] eqn:HT; [done|].
    rewrite Hfile1, Hsame. destruct T1; [done|done].
  - intros Hall. rewrite Hfetch2, HT2.
    rewrite Hsel1 in Hall. rewrite Forall_forall in Hall.
    destruct (filter (fun p => is_Some (err (downloadAndConvertPost e p))) T1)
      as [|q qs] eqn:Hf; [done|].
    assert (q ∈ filter (fun p => is_Some (err (downloadAndConvertPost e p))) T1)
      as Hq by (rewrite Hf; left).
    apply list_elem_of_filter in Hq as [[x Hx] Hq].
    rewrite (Hall q Hq) in Hx. done.
Qed.

Lemma second_run_retries_failures_only_witness :
  let e := Demo.world Demo.site in
  let r1 := main e 5 false Demo.noFiles in
  let r2 := main e 5 false (files r1) in
  exit r1 = Exit0 /\ loadCheckpoint e (files r1) = ledger r1 /\
  articleFetches r2 = [] /\ ledger r2 = ledger r1.
Proof.
  cbn zeta.
  assert (forall l, Permutation (arrival (Demo.world Demo.site) l) l) as Hperm.
  { intros l. cbn. symmetry. apply Permutation_rev. }
  assert (exit (main (Demo.world Demo.site) 5 false Demo.noFiles) = Exit0)
    as Hexit by (vm_compute; reflexivity).
  assert (loadCheckpoint (Demo.world Demo.site)
            (files (main (Demo.world Demo.site) 5 false Demo.noFiles))
          = ledger (main (Demo.world Demo.site) 5 false Demo.noFiles))
    as Hload by (vm_compute; reflexivity).
  pose proof (second_run_retries_failures_only (Demo.world Demo.site) 5
                Demo.noFiles Hperm Hexit Hload) as (_ & _ & Hled & _ & Hzero).
  split; [exact Hexit|]. split; [exact Hload|]. split; [|exact Hled].
  apply Hzero.
  assert (selected (main (Demo.world Demo.site) 5 false Demo.noFiles)
          = [{| Title := "Post A"; URL := Demo.articleURL "post-a";
                Slug := "post-a" |}; Demo.post "post-b";
             {| Title := "Post C"; URL := Demo.articleURL "post-c";
                Slug := "post-c" |}]) as -> by (vm_compute; reflexivity).
  repeat constructor; vm_compute; reflexivity.
Defined.

(** C6 as stated fails: the article post-c ends in a redirect loop, in the
    first run and, the site being unchanged, in the second.  The ledger is
    the same after both runs, but the second run fetches post-c again. *)
Lemma second_run_fetches_failed_article_again :
  let e := Demo.world Demo.sitePostCDown in
  let r1 := main e 5 false Demo.noFiles in
  let r2 := main e 5 false (files r1) in
  exit r1 = Exit0 /\ exit r2 = Exit0 /\
  loadCheckpoint e (files r1) = ledger r1 /\
  ledger r2 = ledger r1 /\
  articleFetches r2 = [Demo.articleURL "post-c"] /\
  articleFetches r2 <> [].
Proof.
  cbn zeta.
  set (r1 := main _ 5 false Demo.noFiles).
  set (r2 := main _ 5 false (files r1)).
  assert (articleFetches r2 = [Demo.articleURL "post-c"]) as Hf
    by (vm_compute; reflexivity).
  assert (exit r1 = Exit0) as H1 by (vm_compute; reflexivity).
  assert (exit r2 = Exit0) as H2 by (vm_compute; reflexivity).
  assert (loadCheckpoint (Demo.world Demo.sitePostCDown) (files r1) = ledger r1)
    as H3 by (vm_compute; reflexivity).
  assert (ledger r2 = ledger r1) as H4 by (vm_compute; reflexivity).
  clearbody r2 r1.
  repeat split; try assumption. rewrite Hf. discriminate.
Qed.

(** ** The publish date *)

Lemma scanDate_first (pre post : list string) (t : string) :
  Forall (fun x => MatchString reDateText (TrimSpace x) = false) pre ->
  MatchString reDateText (TrimSpace t) = true ->
  scanDate (pre ++ t :: post) = TrimSpace t.
Proof.
  intros Hpre Ht. induction Hpre as [|x pre Hx _ IH]; simpl.
  - by rewrite Ht.
  - by rewrite Hx.
Qed.

Lemma scanDate_none (texts : list string) :
  Forall (fun x => MatchString reDateText (TrimSpace x) = false) texts ->
  scanDate texts = EmptyString.
Proof.
  intros H. induction H as [|x texts Hx _ IH]; simpl; [done|]. by rewrite Hx.
Qed.

(** C7, as the code has it.  The date comes from the first time element
    when there is one: (a) a non-empty datetime attribute that parses as
    year-month-day is given in the long form; (a') one that does not parse
    is used as it stands, the text of the element is not looked at; (b)
    without the attribute, or with an empty one, the trimmed text of the
    element is used.  (c) When this leaves the date empty, the first p, div
    or span whose trimmed text is a long-form date gives it, and when none
    is, the date is empty.  The date never makes the extraction fail: a page
    that is fetched, parsed and converted gives a result with no error. *)
Theorem extractDate_resolution_order (doc : document) :
  (forall t rest dt parsed,
     times doc = t :: rest -> datetime t = Some dt -> dt <> EmptyString ->
     parseDate dt = Some parsed -> extractDate doc = formatLong parsed) /\
  (forall t rest dt,
     times doc = t :: rest -> datetime t = Some dt -> dt <> EmptyString ->
     parseDate dt = None -> extractDate doc = dt) /\
  (forall t rest,
     times doc = t :: rest ->
     datetime t = None \/ datetime t = Some EmptyString ->
     TrimSpace (timeText t) <> EmptyString ->
     extractDate doc = TrimSpace (timeText t)) /\
  (times doc = [] \/
   (exists t rest, times doc = t :: rest /\
      (datetime t = None \/ datetime t = Some EmptyString) /\
      TrimSpace (timeText t) = EmptyString) ->
   extractDate doc = scanDate (textNodes doc) /\
   (forall pre t post,
      textNodes doc = (pre ++ t :: post)%list ->
      Forall (fun x => MatchString reDateText (TrimSpace x) = false) pre ->
      MatchString reDateText (TrimSpace t) = true ->
      extractDate doc = TrimSpace t) /\
   (Forall (fun x => MatchString reDateText (TrimSpace x) = false)
           (textNodes doc) ->
    extractDate doc = EmptyString)) /\
  (forall e post html md,
     fetchPage e (URL post) = (html, None) ->
     NewDocument e html = inl doc ->
     ConvertString e (if isEmpty (pickRegion doc articleSelectors)
                      then bodyHtml doc
                      else pickRegion doc articleSelectors) = inl md ->
     err (downloadAndConvertPost e post) = None /\
     date (downloadAndConvertPost e post) = extractDate doc).
Proof.
  unfold extractDate. repeat apply conj.
  - intros t rest dt parsed -> -> Hne ->.
    apply isEmpty_false in Hne. rewrite Hne. cbn.
    destruct (formatLong parsed) eqn:Hf; [|done].
    exfalso. destruct parsed as [[y m] d]. unfold formatLong in Hf.
    destruct (nth (m - 1) longMonthNames EmptyString); discriminate.
  - intros t rest dt -> -> Hne ->.
    pose proof Hne as Hne'. apply isEmpty_false in Hne'. rewrite Hne'. cbn.
    by rewrite Hne'.
  - intros t rest -> Hattr Hne. apply isEmpty_false in Hne.
    destruct Hattr as [->| ->]; cbn; by rewrite Hne.
  - intros Hempty.
    assert (extractDate doc = scanDate (textNodes doc)) as Hscan.
    { unfold extractDate.
      destruct Hempty as [->|(t & rest & -> & Hattr & Hblank)]; [done|].
      destruct Hattr as [->| ->]; cbn; by rewrite Hblank. }
    unfold extractDate in Hscan. rewrite Hscan. split; [done|]. split.
    + intros pre t post -> Hpre Ht. by apply scanDate_first.
    + apply scanDate_none.
  - intros e post html md Hf Hd Hc. unfold downloadAndConvertPost.
    rewrite Hf, Hd. cbn zeta. by rewrite Hc.
Qed.

Lemma extractDate_resolution_order_witness :
  extractDate (Demo.dated (Some "2024-01-05") " Jan 5 " "March 3, 2024")
    = "January 5, 2024" /\
  extractDate (Demo.dated None " Jan 5 " "March 3, 2024") = "Jan 5" /\
  extractDate (Demo.dated None "  " " March 3, 2024 ") = "March 3, 2024".
Proof.
  split; [|split].
  - exact (proj1 (extractDate_resolution_order
                    (Demo.dated (Some "2024-01-05") " Jan 5 " "March 3, 2024"))
                 _ [] "2024-01-05" (2024, 1, 5) eq_refl eq_refl
                 ltac:(discriminate) eq_refl).
  - refine (proj1 (proj2 (proj2 (extractDate_resolution_order
                    (Demo.dated None " Jan 5 " "March 3, 2024"))))
                 _ [] eq_refl (or_introl eq_refl) _).
    vm_compute. discriminate.
  - refine (proj1 (proj2 (proj1 (proj2 (proj2 (proj2
             (extractDate_resolution_order
                (Demo.dated None "  " " March 3, 2024 ")))))
             (or_intror (ex_intro _ _ (ex_intro _ [] (conj eq_refl
                (conj (or_introl eq_refl) eq_refl)))))))
             [] " March 3, 2024 " [] eq_refl (List.Forall_nil _) _).
    vm_compute. reflexivity.
Defined.

(** C7 as stated fails when the datetime attribute is there and does not
    parse: the attribute is a timestamp, the text of the time element is a
    date; the attribute is what the extractor returns, not the text. *)
Lemma unparseable_datetime_is_kept_verbatim :
  let doc := Demo.dated (Some "2024-01-05T10:00:00Z") "January 5, 2024"
               "March 3, 2024" in
  parseDate "2024-01-05T10:00:00Z" = None /\
  extractDate doc = "2024-01-05T10:00:00Z" /\
  extractDate doc <> TrimSpace "January 5, 2024".
Proof. vm_compute. repeat split; discriminate. Qed.

(** ** Saving the checkpoint *)

Lemma prefixes_prefix (data pre : string) :
  pre ∈ prefixes data -> exists suf, data = pre ++ suf.
Proof.
  revert pre. induction data as [|c data IH]; intros pre; cbn [prefixes].
  - intros H. apply list_elem_of_singleton in H as ->. by exists EmptyString.
  - intros H. apply elem_of_cons in H as [->|H].
    + by exists (String c data).
    + change (map (String c) (prefixes data))
        with (String c <$> prefixes data) in H.
      apply list_elem_of_fmap in H as (pre' & -> & H).
      destruct (IH _ H) as [suf ->]. by exists suf.
Qed.

Lemma prefixes_empty (data : string) : EmptyString ∈ prefixes data.
Proof. destruct data; left. Qed.

Lemma truncated_state_reachable (e : env) (cp : checkpoint) (fs : fsState) :
  {| checkpointFile := Some EmptyString; archiveFile := archiveFile fs |}
    ∈ saveCheckpoint_states e cp fs.
Proof.
  unfold saveCheckpoint_states, WriteFile_states.
  apply list_elem_of_In.
  apply (in_map (fun c => {| checkpointFile := c;
                             archiveFile := archiveFile fs |})
                _ (Some EmptyString)).
  right. apply (in_map Some), list_elem_of_In, prefixes_empty.
Qed.

(** C9, as the code has it.  [saveCheckpoint] marshals the whole ledger
    and gives it to one [os.WriteFile]; when the call returns the file
    holds the marshalled ledger.  Until then the archive is untouched, and
    the checkpoint file holds its old contents or a prefix of the new
    ones; the empty file, right after the file is opened and truncated, is
    one of the states a crash can leave.  A run that ends before the save
    (a fatal listing error, nothing to scrape) leaves both files as they
    were. *)
Theorem saveCheckpoint_truncates_then_writes (e : env) (cp : checkpoint)
    (fs : fsState) :
  head (saveCheckpoint_states e cp fs) = Some fs /\
  last (saveCheckpoint_states e cp fs) = Some (saveCheckpoint e cp fs) /\
  checkpointFile (saveCheckpoint e cp fs) = Some (MarshalIndent e cp) /\
  (forall st, st ∈ saveCheckpoint_states e cp fs ->
     archiveFile st = archiveFile fs /\
     (checkpointFile st = checkpointFile fs \/
      exists pre suf, checkpointFile st = Some pre /\
                      MarshalIndent e cp = pre ++ suf)) /\
  {| checkpointFile := Some EmptyString; archiveFile := archiveFile fs |}
    ∈ saveCheckpoint_states e cp fs /\
  (forall fuel force,
     selected (main e fuel force fs) = [] -> files (main e fuel force fs) = fs).
Proof.
  unfold saveCheckpoint_states, saveCheckpoint.
  rewrite WriteFile_final. unfold WriteFile_states.
  split; [by destruct fs|]. split.
  { change (last ((fun c => {| checkpointFile := c;
                               archiveFile := archiveFile fs |})
                  <$> (checkpointFile fs
                       :: (Some <$> prefixes (MarshalIndent e cp))))
            = Some {| checkpointFile := Some (MarshalIndent e cp);
                      archiveFile := archiveFile fs |}).
    by rewrite fmap_last, last_cons, fmap_last, last_prefixes. }
  split; [done|]. split.
  { intros st Hst.
    change (st ∈ (fun c => {| checkpointFile := c;
                              archiveFile := archiveFile fs |})
                 <$> (checkpointFile fs
                      :: (Some <$> prefixes (MarshalIndent e cp)))) in Hst.
    apply list_elem_of_fmap in Hst as (c & -> & Hc). cbn. split; [done|].
    apply elem_of_cons in Hc as [->|Hc]; [by left|]. right.
    apply list_elem_of_fmap in Hc as (pre & -> & Hpre).
    destruct (prefixes_prefix _ _ Hpre) as [suf Hsuf]. eauto. }
  split; [apply truncated_state_reachable|].
  intros fuel force Hsel.
  destruct (getAllBlogLinks e fuel) as [allPosts fin] eqn:Hg.
  assert (fin = Done \/ fin <> Done) as [->|Hfin]
    by (destruct fin; auto; right; discriminate).
  - destruct allPosts as [|p0 ps]; [unfold main; by rewrite Hg|].
    rewrite (main_done e fuel force fs _ Hg) in * by done.
    unfold proceed in *.
    by destruct (selectToScrape force (loadCheckpoint e fs) (p0 :: ps)).1.
  - destruct (main_not_done e fuel force fs) as (st & _ & ->); [by rewrite Hg|].
    done.
Qed.

(** C9 as stated fails: the old file holds post-a; while the ledger with
    post-a and post-b is being saved, the file is first truncated.  A crash
    there leaves an empty checkpoint file, which is neither the old file
    nor the new one, and the next run loads an empty ledger from it. *)
Lemma interrupted_save_loses_old_entries :
  let e := Demo.world Demo.site in
  let old := Demo.encode Demo.ledgerA in
  let fs := {| checkpointFile := Some old; archiveFile := None |} in
  exists st,
    st ∈ saveCheckpoint_states e Demo.ledgerAB fs /\
    loadCheckpoint e fs = Demo.ledgerA /\
    checkpointFile st <> checkpointFile fs /\
    checkpointFile st <> checkpointFile (saveCheckpoint e Demo.ledgerAB fs) /\
    loadCheckpoint e st = ∅.
Proof.
  cbn zeta.
  exists {| checkpointFile := Some EmptyString; archiveFile := None |}.
  split.
  { apply (truncated_state_reachable (Demo.world Demo.site) Demo.ledgerAB
             {| checkpointFile := Some (Demo.encode Demo.ledgerA);
                archiveFile := None |}). }
  split; [vm_compute; reflexivity|].
  split; [vm_compute; discriminate|].
  split; [vm_compute; discriminate|].
  vm_compute; reflexivity.
Qed.

(** ** The clean-up pipeline *)

Lemma ws_head_shorter (s r : string) :
  ws_head s = Some r -> String.length r < String.length s.
Proof.
  unfold ws_head. intros H.
  destruct s as [|c [|d [|e s3]]]; repeat case_match; simplify_eq; simpl; lia.
Qed.

Lemma ws_head_app (a b r : string) :
  ws_head a = Some r -> ws_head (a ++ b) = Some (r ++ b).
Proof.
  unfold ws_head. intros H.
  destruct a as [|c [|d [|e s3]]]; simpl in *;
    repeat case_match; simplify_eq; try done.
Qed.

Lemma trimLeft_fuel_enough (n m : nat) (s : string) :
  String.length s <= n -> String.length s <= m ->
  trimLeft_fuel n s = trimLeft_fuel m s.
Proof.
  revert m s. induction n as [|n IH]; intros m s Hn Hm.
  - destruct s; [|simpl in Hn; lia]. by destruct m.
  - destruct m as [|m].
    + destruct s; [done|simpl in Hm; lia].
    + simpl. destruct (ws_head s) as [r|] eqn:Hr; [|done].
      apply ws_head_shorter in Hr. apply IH; lia.
Qed.

Lemma trimLeft_step (s r : string) :
  ws_head s = Some r -> trimLeft s = trimLeft r.
Proof.
  intros H. unfold trimLeft. pose proof (ws_head_shorter _ _ H) as Hlt.
  destruct (String.length s) as [|n] eqn:Hn; [lia|].
  simpl. rewrite H. apply trimLeft_fuel_enough; lia.
Qed.

Lemma trimLeft_stop (s : string) : ws_head s = None -> trimLeft s = s.
Proof.
  intros H. unfold trimLeft. destruct (String.length s); simpl; [done|].
  by rewrite H.
Qed.

Lemma trimLeft_head (s : string) : ws_head (trimLeft s) = None.
Proof.
  remember (String.length s) as n eqn:Hn.
  revert s Hn. induction n as [n IH] using lt_wf_ind. intros s ->.
  destruct (ws_head s) as [r|] eqn:Hr.
  - rewrite (trimLeft_step _ _ Hr).
    apply (IH (String.length r)); [by apply ws_head_shorter|done].
  - by rewrite trimLeft_stop.
Qed.

Lemma all_ws_app (a b : string) :
  all_ws a = true -> all_ws (a ++ b) = all_ws b.
Proof.
  remember (String.length a) as n eqn:Hn.
  revert a Hn. induction n as [n IH] using lt_wf_ind. intros a -> Ha.
  destruct (ws_head a) as [r|] eqn:Hr.
  - unfold all_ws in *. rewrite (trimLeft_step _ _ Hr) in Ha.
    rewrite (trimLeft_step _ _ (ws_head_app _ b _ Hr)).
    apply (IH (String.length r)); [by apply ws_head_shorter|done|done].
  - unfold all_ws in Ha. rewrite trimLeft_stop in Ha by done.
    apply isEmpty_true in Ha. by subst a.
Qed.

Lemma trimRight_split (s : string) :
  exists v, s = trimRight s ++ v /\ all_ws v = true.
Proof.
  induction s as [|c r (v & Hv & Hw)].
  - by exists EmptyString.
  - cbn [trimRight]. destruct (all_ws (String c r)) eqn:Hall.
    + by exists (String c r).
    + exists v. split; [|done]. rewrite Hv at 1. reflexivity.
Qed.

Lemma trimRight_idem (s : string) : trimRight (trimRight s) = trimRight s.
Proof.
  induction s as [|c r IH]; [done|].
  cbn [trimRight]. destruct (all_ws (String c r)) eqn:Hall; [done|].
  cbn [trimRight]. rewrite IH.
  destruct (all_ws (String c (trimRight r))) eqn:Hall'; [|done].
  destruct (trimRight_split r) as (v & Hv & Hw).
  pose proof (all_ws_app (String c (trimRight r)) v Hall') as H.
  change (String c (trimRight r) ++ v) with (String c (trimRight r ++ v)) in H.
  rewrite <- Hv, Hw in H. congruence.
Qed.

Lemma trimRight_head (s : string) :
  ws_head s = None -> ws_head (trimRight s) = None.
Proof.
  intros H. destruct (trimRight_split s) as (v & Hv & _).
  destruct (ws_head (trimRight s)) as [r|] eqn:Hr; [|done].
  apply (ws_head_app _ v) in Hr. rewrite <- Hv in Hr. congruence.
Qed.

Lemma TrimSpace_idem (s : string) : TrimSpace (TrimSpace s) = TrimSpace s.
Proof.
  unfold TrimSpace.
  rewrite (trimLeft_stop (trimRight (trimLeft s))).
  - apply trimRight_idem.
  - apply trimRight_head, trimLeft_head.
Qed.

Lemma replaceFrom_no_match (r : re) (repl : string) (s : string) :
  forall prev, matchFrom r prev s = false -> replaceFrom r repl prev 0 s = s.
Proof.
  induction s as [|c s IH]; intros prev H; [done|].
  cbn [matchFrom replaceFrom] in *.
  destruct (matchAt r prev (String c s)); [done|].
  by rewrite IH.
Qed.

Lemma ReplaceAllString_no_match (r : re) (s repl : string) :
  MatchString r s = false -> ReplaceAllString r s repl = s.
Proof. apply replaceFrom_no_match. Qed.

(** C5, as the code has it.  Cleaned Markdown in which none of the ten
    patterns of the pipeline matches any more is a fixed point of the
    pipeline: cleaning it again changes nothing.  (The trimming at the end
    can uncover a new match, and then a second cleaning does change the
    text.) *)
Theorem cleanMarkdown_fixed_point_when_pattern_free (raw title : string) :
  Forall (fun r => MatchString r (cleanMarkdown raw title) = false)
         (cleanupPatterns title) ->
  cleanMarkdown (cleanMarkdown raw title) title = cleanMarkdown raw title.
Proof.
  assert (TrimSpace (cleanMarkdown raw title) = cleanMarkdown raw title) as Ht.
  { unfold cleanMarkdown. apply TrimSpace_idem. }
  set (x := cleanMarkdown raw title) in *. clearbody x.
  unfold cleanupPatterns. intros H.
  repeat match goal with
         | H : Forall _ (_ :: _) |- _ => apply Forall_cons in H as [? H]
         end.
  unfold cleanMarkdown.
  rewrite (ReplaceAllString_no_match reBreadcrumb x) by assumption.
  rewrite (ReplaceAllString_no_match reDateLine x) by assumption.
  rewrite (ReplaceAllString_no_match (reH1 title) x) by assumption.
  rewrite (ReplaceAllString_no_match reShareFooter x) by assumption.
  rewrite (ReplaceAllString_no_match reRelated x) by assumption.
  rewrite (ReplaceAllString_no_match reWantMore x) by assumption.
  rewrite (ReplaceAllString_no_match reCGCta x) by assumption.
  rewrite (ReplaceAllString_no_match reReadyStart x) by assumption.
  rewrite (ReplaceAllString_no_match reNextImage x) by assumption.
  rewrite (ReplaceAllString_no_match reExcessBlanks x) by assumption.
  exact Ht.
Qed.

Lemma cleanMarkdown_fixed_point_when_pattern_free_witness :
  let raw := "# My Title" ++ nl ++ nl ++ "Body" ++ nl ++ nl ++
             "Share this article" ++ nl ++ "Footer junk" in
  cleanMarkdown raw "My Title" = "Body" /\
  cleanMarkdown (cleanMarkdown raw "My Title") "My Title"
    = cleanMarkdown raw "My Title".
Proof.
  cbn zeta. split; [vm_compute; reflexivity|].
  apply cleanMarkdown_fixed_point_when_pattern_free.
  repeat constructor; vm_compute; reflexivity.
Defined.

(** C5 as stated fails: with a space before the heading, the heading pass
    finds nothing at the start of a line; the final trim removes the space,
    and a second cleaning then removes the heading. *)
Lemma cleanMarkdown_not_idempotent :
  let raw := " # T" ++ nl ++ "B" in
  cleanMarkdown raw "T" = "# T" ++ nl ++ "B" /\
  cleanMarkdown (cleanMarkdown raw "T") "T" = "B" /\
  cleanMarkdown (cleanMarkdown raw "T") "T" <> cleanMarkdown raw "T".
Proof. vm_compute. repeat split; discriminate. Qed.

(** ** Checks on concrete inputs *)

Example TrimSpace_ascii :
  TrimSpace ("  a b " ++ chr 10) = "a b".
Proof. reflexivity. Qed.

Example TrimSpace_nbsp :
  TrimSpace (chr 194 ++ chr 160 ++ "x" ++ chr 226 ++ chr 128 ++ chr 137) = "x".
Proof. reflexivity. Qed.

Example cleanMarkdown_spec_example :
  cleanMarkdown
    ("# My Title" ++ nl ++ nl ++ "Body" ++ nl ++ nl ++
     "Share this article" ++ nl ++ "Footer junk") "My Title" = "Body".
Proof. vm_compute. reflexivity. Qed.

Example cleanMarkdown_passes :
  cleanMarkdown
    ("[All Articles](/unchained)" ++ nl ++ nl ++ "March 3, 2024" ++ nl ++
     "# T" ++ nl ++ "a" ++ nl ++ "![](/_next/image?url=(x)&w=1)" ++ nl ++
     nl ++ nl ++ nl ++ "b" ++ nl ++ "_Ready to get started? yes" ++ nl ++ nl ++
     "Chainguard provides a secure foundation for x." ++ nl ++
     "[Get in touch](/contact) now" ++ nl ++ "c" ++ nl ++
     "Related articles" ++ nl ++ "junk") "T"
  = "a" ++ nl ++ nl ++ "bc".
Proof. vm_compute. reflexivity. Qed.

Example parseDate_ok : formatLong <$> parseDate "2024-01-05" = Some "January 5, 2024".
Proof. reflexivity. Qed.

Example parseDate_leap : parseDate "2023-02-29" = None /\ parseDate "2024-02-29" = Some (2024, 2, 29).
Proof. split; reflexivity. Qed.

Example parseDate_timestamp : parseDate "2024-01-05T10:00:00Z" = None.
Proof. reflexivity. Qed.

(** The example of the specification for discovery: page 2 has a disabled
    next-page button, the pass ends there with the links of both pages,
    each slug once. *)
Example getAllBlogLinks_two_pages :
  Slug <$> (getAllBlogLinks (Demo.world Demo.site) 5).1
    = ["post-a"; "post-b"; "post-c"] /\
  (getAllBlogLinks (Demo.world Demo.site) 5).2 = Done.
Proof. vm_compute. split; reflexivity. Qed.

Example reDateText_matches :
  MatchString reDateText "January 5, 2024" = true /\
  MatchString reDateText "Posted January 5, 2024" = false /\
  MatchString reDateText (formatLong (2024, 12, 31)) = true.
Proof. vm_compute. repeat split. Qed.

(** * More properties of the scraper *)

Lemma sapp_cons (x : ascii) (a b : string) :
  String x a ++ b = String x (a ++ b).
Proof. reflexivity. Qed.

Lemma sapp_assoc (a b c : string) : (a ++ b) ++ c = a ++ (b ++ c).
Proof.
  induction a as [|x a IH]; [done|]. rewrite !sapp_cons. by f_equal.
Qed.


Lemma HasPrefix_split (s p : string) :
  HasPrefix s p = true -> s = p ++ dropPrefix s p.
Proof.
  revert s. induction p as [|a p IH]; intros s H; [by destruct s|].
  destruct s as [|b s]; simpl in H; [discriminate|]. simpl.
  apply andb_true_iff in H as [Hab Hp]. apply Ascii.eqb_eq in Hab as ->.
  rewrite sapp_cons. f_equal. by apply IH.
Qed.

(** ** The listing discoverer *)

(** X1: a link met a second time adds nothing: visiting the same anchor
    twice leaves the posts and the seen slugs as after the first visit. *)
Theorem visitLink_twice (st : list blogPost * gset string) (a : anchor) :
  visitLink (visitLink st a) a = visitLink st a.
Proof.
  destruct st as [posts seen].
  destruct (visitLink (posts, seen) a) as [posts' seen'] eqn:Hv.
  unfold visitLink in Hv |- *.
  destruct (String.eqb (href a) "/unchained" || Contains (href a) "/category/");
    [done|].
  destruct (isEmpty (TrimPrefix (href a) "/unchained/")); [done|].
  destruct (Contains (TrimPrefix (href a) "/unchained/") "?"); [done|].
  cbn [orb] in *.
  destruct (bool_decide (TrimPrefix (href a) "/unchained/" ∈ seen)) eqn:Hs.
  - injection Hv as <- <-. by rewrite Hs.
  - injection Hv as <- <-. rewrite bool_decide_eq_true_2; [done|].
    apply elem_of_union_l, elem_of_singleton. done.
Qed.

Lemma visitLink_shape (st : list blogPost * gset string) (a : anchor) :
  HasPrefix (href a) "/unchained/" = true ->
  Forall wellFormedPost st.1 -> Forall wellFormedPost (visitLink st a).1.
Proof.
  destruct st as [posts seen]. intros Hpre Hall. unfold visitLink.
  destruct (String.eqb (href a) "/unchained" || Contains (href a) "/category/");
    [done|].
  destruct (isEmpty (TrimPrefix (href a) "/unchained/")) eqn:He; [done|].
  destruct (Contains (TrimPrefix (href a) "/unchained/") "?"); [done|].
  destruct (bool_decide _); [done|]. cbn.
  apply Forall_app. split; [done|]. constructor; [|done].
  split; cbn.
  - unfold TrimPrefix. rewrite Hpre.
    by rewrite (HasPrefix_split _ _ Hpre) at 1.
  - apply isEmpty_false in He.
    destruct (isEmpty (TrimSpace (text a))) eqn:Ht; [done|].
    by apply isEmpty_false.
Qed.

Lemma visitLinks_shape (links : list anchor) (st : list blogPost * gset string) :
  Forall (fun a => HasPrefix (href a) "/unchained/" = true) links ->
  Forall wellFormedPost st.1 ->
  Forall wellFormedPost (foldl visitLink st links).1.
Proof.
  intros Hl. revert st. induction Hl as [|a links Ha _ IH]; intros st Hst; [done|].
  simpl. apply IH. by apply visitLink_shape.
Qed.

Lemma articleLinks_prefix (doc : document) :
  Forall (fun a => HasPrefix (href a) "/unchained/" = true) (articleLinks doc).
Proof.
  unfold articleLinks. apply List.Forall_forall. intros a Ha.
  by apply filter_In in Ha as [_ Ha].
Qed.

Lemma listingLoop_shape (e : env) (fuel page : nat)
    (st : list blogPost * gset string) :
  Forall wellFormedPost st.1 ->
  Forall wellFormedPost (listingLoop e fuel page st).1.
Proof.
  revert page st. induction fuel as [|fuel IH]; intros page st Hst; [done|].
  simpl. destruct (fetchPage e (pageURL page)) as [html [msg|]]; [done|].
  destruct (NewDocument e html) as [doc|msg]; [|done].
  pose proof (visitLinks_shape _ st (articleLinks_prefix doc) Hst) as Hst'.
  destruct (nextButtons doc) as [|[|] ?]; cbn; [done|done|].
  by apply IH.
Qed.

(** X2: every post of a discovery pass has the URL made of the site
    origin, the article path prefix and its slug, and a non-empty title
    (the link text, or the slug when the link has no text). *)
Theorem getAllBlogLinks_post_shape (e : env) (fuel : nat) :
  Forall (fun p => URL p = baseURL ++ "/unchained/" ++ Slug p /\
                   Title p <> EmptyString)
         (getAllBlogLinks e fuel).1.
Proof. apply (listingLoop_shape e fuel 1 ([], ∅)). constructor. Qed.

Lemma visitLink_extends (st : list blogPost * gset string) (a : anchor) :
  st.1 `prefix_of` (visitLink st a).1.
Proof.
  destruct st as [posts seen]. unfold visitLink.
  destruct (String.eqb (href a) "/unchained" || Contains (href a) "/category/");
    [done|].
  destruct (isEmpty (TrimPrefix (href a) "/unchained/")
            || Contains (TrimPrefix (href a) "/unchained/") "?"
            || bool_decide (TrimPrefix (href a) "/unchained/" ∈ seen));
    [done|].
  cbn. by apply prefix_app_r.
Qed.

Lemma visitLinks_extends (links : list anchor)
    (st : list blogPost * gset string) :
  st.1 `prefix_of` (foldl visitLink st links).1.
Proof.
  revert st. induction links as [|a links IH]; intros st; simpl; [done|].
  etrans; [apply (visitLink_extends st a)|apply IH].
Qed.

(** X3: discovery keeps the first-seen order: whatever the later pages
    hold, the posts already found stay where they are and new posts are
    added behind them, both in the loop and page by page. *)
Theorem discovery_only_appends (e : env) (n page : nat)
    (st : list blogPost * gset string) :
  st.1 `prefix_of` (listingLoop e n page st).1 /\
  st.1 `prefix_of` (gather e n page st).1 /\
  (gather e n page st).1 `prefix_of` (gather e (S n) page st).1.
Proof.
  split; [|split].
  - revert page st. induction n as [|fuel IH]; intros page st; [done|].
    simpl. destruct (fetchPage e (pageURL page)) as [html [msg|]]; [done|].
    destruct (NewDocument e html) as [doc|msg]; [|done].
    pose proof (visitLinks_extends (articleLinks doc) st) as H.
    destruct (nextButtons doc) as [|[|] ?]; cbn; [done|done|].
    etrans; [exact H|apply IH].
  - revert page st. induction n as [|n IH]; intros page st; [done|].
    cbn [gather]. destruct (pageDoc e page) as [doc|]; [|done].
    etrans; [apply (visitLinks_extends (articleLinks doc) st)|apply IH].
  - revert page st. induction n as [|n IH]; intros page st.
    + cbn [gather]. destruct (pageDoc e page) as [doc|]; [|done].
      apply visitLinks_extends.
    + cbn [gather] in *. destruct (pageDoc e page) as [doc|]; [|done].
      apply IH.
Qed.

Lemma listingLoop_done (e : env) (n : nat) :
  forall page st fuel doc,
    (forall i, i < n -> continues e (page + i)) ->
    pageDoc e (page + n) = Some doc ->
    hd true (nextButtons doc) = true ->
    n < fuel ->
    listingLoop e fuel page st = ((gather e (S n) page st).1, Done).
Proof.
  induction n as [|n IH]; intros page st fuel doc Hgo Hdoc Hlast Hfuel.
  - destruct fuel as [|fuel]; [lia|]. rewrite Nat.add_0_r in Hdoc.
    cbn [gather]. rewrite Hdoc. unfold pageDoc in Hdoc. simpl.
    destruct (fetchPage e (pageURL page)) as [html [msg|]]; [done|].
    destruct (NewDocument e html) as [doc'|msg]; [|done].
    injection Hdoc as ->.
    by destruct (nextButtons doc) as [|[|] ?].
  - destruct fuel as [|fuel]; [lia|].
    destruct (listingLoop_continue e fuel page st) as (doc0 & Hdoc0 & ->).
    { specialize (Hgo 0 ltac:(lia)). by rewrite Nat.add_0_r in Hgo. }
    replace (page + S n) with (S page + n) in Hdoc by lia.
    rewrite (IH (S page) _ fuel doc); [|intros i Hi|done|done|lia].
    + cbn [gather]. by rewrite Hdoc0.
    + replace (S page + i) with (page + S i) by lia. apply Hgo. lia.
Qed.

(** X4: pagination ends at the first page whose next-page button is
    missing or disabled: when the [n] pages before it had an enabled
    button, the pass returns, without error, the posts gathered from those
    pages and that one, and reads no further page. *)
Theorem getAllBlogLinks_stops_at_last_page (e : env) (n fuel : nat)
    (doc : document) :
  (forall i, i < n -> continues e (1 + i)) ->
  pageDoc e (1 + n) = Some doc ->
  hd true (nextButtons doc) = true ->
  n < fuel ->
  getAllBlogLinks e fuel = ((gather e (S n) 1 ([], ∅)).1, Done).
Proof. apply listingLoop_done. Qed.

Lemma getAllBlogLinks_stops_at_last_page_witness :
  Slug <$> (getAllBlogLinks (Demo.world Demo.site) 5).1
    = ["post-a"; "post-b"; "post-c"] /\
  (getAllBlogLinks (Demo.world Demo.site) 5).2 = Done.
Proof.
  rewrite (getAllBlogLinks_stops_at_last_page (Demo.world Demo.site) 1 5
             Demo.page2).
  - split; vm_compute; reflexivity.
  - intros i Hi. assert (i = 0) as -> by lia.
    exists Demo.page1, []. split; reflexivity.
  - reflexivity.
  - reflexivity.
  - lia.
Defined.

(** ** Runs of [main] *)

Lemma main_split (e : env) (fuel : nat) (force : bool) (fs : fsState) :
  (exists st allPosts,
     st <> Exit0 /\
     main e fuel force fs = stopped st fs (loadCheckpoint e fs) allPosts []) \/
  (exists allPosts,
     getAllBlogLinks e fuel = (allPosts, Done) /\ allPosts <> [] /\
     NoDup (Slug <$> allPosts) /\ Forall wellFormedPost allPosts /\
     main e fuel force fs
     = proceed e force fs allPosts
         (selectToScrape force (loadCheckpoint e fs) allPosts).1
         (selectToScrape force (loadCheckpoint e fs) allPosts).2).
Proof.
  pose proof (listingLoop_inv e fuel 1 ([], ∅) listingInv_start) as [Hnd _].
  pose proof (listingLoop_shape e fuel 1 ([], ∅) (Forall_nil_2 _)) as Hshape.
  fold (getAllBlogLinks e fuel) in Hnd, Hshape.
  destruct (getAllBlogLinks e fuel) as [allPosts fin] eqn:Hg.
  assert (fin = Done \/ fin <> Done) as [->|Hfin]
    by (destruct fin; auto; right; discriminate).
  - destruct allPosts as [|p0 ps].
    + left. exists (Fatal "no posts found"), []. split; [done|].
      unfold main. by rewrite Hg.
    + right. exists (p0 :: ps). repeat split; try done.
      by apply main_done.
  - left. destruct (main_not_done e fuel force fs) as (st & Hst & Hm);
      [by rewrite Hg|].
    exists st, (getAllBlogLinks e fuel).1. done.
Qed.


Lemma proceed_fetches (e : env) (force : bool) (fs : fsState)
    (allPosts toScrape : list blogPost) (cp' : checkpoint) :
  let r := proceed e force fs allPosts toScrape cp' in
  selected r = toScrape /\ articleFetches r = URL <$> toScrape /\
  discovered r = allPosts.
Proof. unfold proceed. by destruct toScrape. Qed.

Lemma selectToScrape_sublist (force : bool) (cp : checkpoint)
    (allPosts : list blogPost) :
  (selectToScrape force cp allPosts).1 `sublist_of` allPosts.
Proof.
  destruct force; [done|]. rewrite selectToScrape_incremental.
  apply sublist_filter.
Qed.

(** X6: no article is fetched twice in one run: the article URLs given to
    the fetcher are pairwise distinct, and they are the URLs of the selected
    posts. *)
Theorem articles_fetched_once (e : env) (fuel : nat) (force : bool)
    (fs : fsState) :
  let r := main e fuel force fs in
  articleFetches r = URL <$> selected r /\ NoDup (articleFetches r).
Proof.
  cbn zeta.
  destruct (main_split e fuel force fs)
    as [(st & allPosts & _ & ->)|(allPosts & _ & _ & Hnd & Hshape & ->)].
  { split; [done|constructor]. }
  destruct (proceed_fetches e force fs allPosts
              (selectToScrape force (loadCheckpoint e fs) allPosts).1
              (selectToScrape force (loadCheckpoint e fs) allPosts).2)
    as (-> & -> & _).
  split; [done|].
  apply (sublist_NoDup _ (URL <$> allPosts));
    [|apply fmap_sublist, selectToScrape_sublist].
  assert (URL <$> allPosts
          = (fun sl => baseURL ++ "/unchained/" ++ sl) <$> (Slug <$> allPosts))
    as ->.
  { rewrite <- list_fmap_compose. apply Forall_fmap_ext.
    eapply Forall_impl; [exact Hshape|]. by intros p [? _]. }
  apply NoDup_fmap_2; [|done].
  intros x y Hxy. rewrite <- !sapp_assoc in Hxy.
  by apply String.app_inj in Hxy.
Qed.

(** X7: a run without the force flag never changes an entry it found in
    the checkpoint: every slug of the loaded ledger has the same entry,
    the old time stamp included, when the run ends. *)
Theorem incremental_run_keeps_old_entries (e : env) (fuel : nat)
    (fs : fsState) (sl : string) (x : checkpointEntry) :
  (forall l, Permutation (arrival e l) l) ->
  loadCheckpoint e fs !! sl = Some x ->
  ledger (main e fuel false fs) !! sl = Some x.
Proof.
  intros Hperm Hold.
  destruct (main_split e fuel false fs)
    as [(st & allPosts & _ & ->)|(allPosts & _ & _ & _ & _ & ->)]; [done|].
  rewrite selectToScrape_incremental. cbn [fst snd].
  destruct (proceed_facts e false fs allPosts
              (filter (fun p => Slug p ∉ dom (loadCheckpoint e fs)) allPosts)
              (loadCheckpoint e fs) Hperm) as (_ & _ & -> & _).
  rewrite updateCheckpoint_lookup.
  destruct (scrapeAll e _ !! sl) as [r|] eqn:Hr; [|done].
  exfalso. assert (sl ∈ dom (scrapeAll e
             (filter (fun p => Slug p ∉ dom (loadCheckpoint e fs)) allPosts)))
    as Hin by (apply elem_of_dom; eauto).
  apply (scrapeAll_dom e Hperm) in Hin as (p & Hp & <- & _).
  apply list_elem_of_filter in Hp as [Hp _]. apply Hp, elem_of_dom. eauto.
Qed.

Lemma incremental_run_keeps_old_entries_witness :
  let e := Demo.world Demo.site in
  let fs := {| checkpointFile := Some (Demo.encode Demo.ledgerA);
               archiveFile := None |} in
  ledger (main e 5 false fs) !! "post-a" = Some Demo.entryA.
Proof.
  cbn zeta.
  apply incremental_run_keeps_old_entries.
  - intros l. cbn. symmetry. apply Permutation_rev.
  - vm_compute. reflexivity.
Defined.

(** X8: where the entries of the ledger come from.  After a run that
    ended with status 0, an entry of the ledger is either an entry of the
    loaded checkpoint, as it was (without the force flag only), or the
    entry of a post selected and scraped without error in this run: its
    title, URL and date are those of the scrape result and its time stamp
    is the time of this run. *)
Theorem ledger_entry_provenance (e : env) (fuel : nat) (force : bool)
    (fs : fsState) (sl : string) (x : checkpointEntry) :
  (forall l, Permutation (arrival e l) l) ->
  let r := main e fuel force fs in
  exit r = Exit0 ->
  ledger r !! sl = Some x ->
  (force = false /\ loadCheckpoint e fs !! sl = Some x) \/
  (exists p, p ∈ selected r /\ Slug p = sl /\
             err (downloadAndConvertPost e p) = None /\
             x = {| entryTitle := title (downloadAndConvertPost e p);
                    entryURL := URL p;
                    entryDate := date (downloadAndConvertPost e p);
                    ScrapedAt := now e |}).
Proof.
  intros Hperm r Hexit Hx. subst r.
  destruct (main_split e fuel force fs)
    as [(st & allPosts & Hst & Hm)|(allPosts & _ & _ & _ & _ & Hm)].
  { rewrite Hm in Hexit. done. }
  rewrite Hm in *. clear Hm Hexit.
  pose proof (selectToScrape_elem force (loadCheckpoint e fs) allPosts) as Hsel.
  destruct (proceed_facts e force fs allPosts
              (selectToScrape force (loadCheckpoint e fs) allPosts).1
              (selectToScrape force (loadCheckpoint e fs) allPosts).2 Hperm)
    as (-> & _ & Hled & _).
  rewrite Hled, updateCheckpoint_lookup in Hx.
  destruct (scrapeAll e _ !! sl) as [res|] eqn:Hres.
  - right. injection Hx as <-.
    apply (scrapeAll_lookup e Hperm) in Hres as (Hok & Hslug & p & Hp & ->).
    exists p. rewrite download_slug in Hslug. repeat split; try done.
    unfold entryOf. f_equal.
    unfold downloadAndConvertPost in *.
    destruct (fetchPage e (URL p)) as [html [msg|]]; [done|].
    destruct (NewDocument e html) as [doc|msg]; [|done]. cbn zeta in *.
    by destruct (ConvertString e _).
  - left. destruct force.
    + cbn in Hx. by rewrite lookup_empty in Hx.
    + rewrite selectToScrape_incremental in Hx. done.
Qed.

Lemma ledger_entry_provenance_witness :
  let e := Demo.world Demo.sitePostCDown in
  let r := main e 5 true Demo.noFiles in
  exit r = Exit0 /\
  exists x, ledger r !! "post-b" = Some x /\ ScrapedAt x = now e.
Proof.
  cbn zeta.
  assert (exit (main (Demo.world Demo.sitePostCDown) 5 true Demo.noFiles)
          = Exit0) as Hexit by (vm_compute; reflexivity).
  split; [exact Hexit|].
  destruct (ledger (main (Demo.world Demo.sitePostCDown) 5 true Demo.noFiles)
              !! "post-b") as [x|] eqn:Hx; [|by vm_compute in Hx].
  exists x. split; [done|].
  destruct (ledger_entry_provenance (Demo.world Demo.sitePostCDown) 5 true
              Demo.noFiles "post-b" x) as [[Hf _]|(p & _ & _ & _ & ->)].
  - intros l. cbn. symmetry. apply Permutation_rev.
  - exact Hexit.
  - exact Hx.
  - discriminate.
  - reflexivity.
Defined.

Lemma omap_sublist {A B C} (f : A -> option B) (g : B -> C) (h : A -> C)
    (l : list A) :
  (forall a b, a ∈ l -> f a = Some b -> g b = h a) ->
  g <$> omap f l `sublist_of` h <$> l.
Proof.
  induction l as [|a l IH]; intros H; [constructor|].
  cbn. destruct (f a) as [b|] eqn:Hb; cbn.
  - rewrite (H a b) by (done || left). apply sublist_skip, IH.
    intros a' b' Ha'. apply H. by right.
  - apply sublist_cons, IH. intros a' b' Ha'. apply H. by right.
Qed.

(** X9: the sections a run writes follow the listing: their slugs are a
    subsequence of the slugs of the discovered posts, so they come in
    listing order and no slug has two sections in one run; and each is the
    result of a post selected in this run. *)
Theorem sections_in_listing_order (e : env) (fuel : nat) (force : bool)
    (fs : fsState) :
  (forall l, Permutation (arrival e l) l) ->
  let r := main e fuel force fs in
  slug <$> sections r `sublist_of` Slug <$> discovered r /\
  NoDup (slug <$> sections r) /\
  (forall s, s ∈ sections r ->
     err s = None /\
     exists p, p ∈ selected r /\ s = downloadAndConvertPost e p).
Proof.
  intros Hperm. cbn zeta.
  destruct (main_split e fuel force fs)
    as [(st & allPosts & _ & ->)|(allPosts & _ & _ & Hnd & _ & ->)].
  { cbn. split; [apply sublist_nil_l|]. split; [constructor|].
    intros s Hs. by apply elem_of_nil in Hs. }
  set (T := (selectToScrape force (loadCheckpoint e fs) allPosts).1).
  set (cp' := (selectToScrape force (loadCheckpoint e fs) allPosts).2).
  assert (sections (proceed e force fs allPosts T cp') = []
          \/ sections (proceed e force fs allPosts T cp')
             = sectionsOf allPosts (scrapeAll e T)) as Hsec
    by (unfold proceed; destruct T; auto).
  destruct (proceed_fetches e force fs allPosts T cp') as (-> & _ & ->).
  destruct Hsec as [-> | ->].
  { cbn. split; [apply sublist_nil_l|]. split; [constructor|].
    intros s Hs. by apply elem_of_nil in Hs. }
  assert (slug <$> sectionsOf allPosts (scrapeAll e T)
          `sublist_of` Slug <$> allPosts) as Hsub.
  { apply omap_sublist. intros p s _ Hs.
    by apply (scrapeAll_lookup e Hperm) in Hs as (_ & ? & _). }
  split; [exact Hsub|]. split; [by apply (sublist_NoDup _ _ Hnd)|].
  intros s Hs. apply list_elem_of_omap in Hs as (p & _ & Hs).
  apply (scrapeAll_lookup e Hperm) in Hs as (? & _ & ?). done.
Qed.

Lemma sections_in_listing_order_witness :
  let r := main (Demo.world Demo.sitePostCDown) 5 false Demo.noFiles in
  slug <$> sections r = ["post-a"; "post-b"] /\
  NoDup (slug <$> sections r).
Proof.
  cbn zeta. split; [vm_compute; reflexivity|].
  apply (sections_in_listing_order (Demo.world Demo.sitePostCDown) 5 false
           Demo.noFiles).
  intros l. cbn. symmetry. apply Permutation_rev.
Defined.




(** X11: with the force flag the files found do not matter: a forced run
    that ends with status 0 does the same, and leaves the same ledger,
    checkpoint file and archive, whatever checkpoint and archive were there
    before. *)
Theorem forced_run_ignores_old_files (e : env) (fuel : nat)
    (fs fs' : fsState) :
  exit (main e fuel true fs) = Exit0 ->
  main e fuel true fs' = main e fuel true fs.
Proof.
  intros Hexit. destruct (main_exit0 _ _ _ _ Hexit) as (allPosts & Hg & Hne).
  rewrite !(main_done e fuel true _ allPosts Hg Hne). cbn [selectToScrape fst snd].
  unfold proceed. by destruct allPosts.
Qed.

Lemma forced_run_ignores_old_files_witness :
  let e := Demo.world Demo.site in
  main e 5 true {| checkpointFile := Some "garbage";
                   archiveFile := Some "old archive" |}
  = main e 5 true Demo.noFiles.
Proof.
  cbn zeta. apply forced_run_ignores_old_files. vm_compute. reflexivity.
Defined.

(** ** The scraper *)

Lemma collect_untouched (rs : list scrapeResult)
    (out : gmap string scrapeResult) (sl : string) :
  (forall r, r ∈ rs -> slug r = sl -> err r <> None) ->
  foldl collect out rs !! sl = out !! sl.
Proof.
  revert out. induction rs as [|r rs IH]; intros out H; simpl; [done|].
  rewrite IH by (intros r' Hr'; apply H; by right).
  unfold collect. destruct (err r) eqn:He; [done|].
  rewrite lookup_insert_ne; [done|]. intros Hs.
  by apply (H r ltac:(left) Hs).
Qed.

Lemma collect_found (rs : list scrapeResult)
    (out : gmap string scrapeResult) (r : scrapeResult) :
  NoDup (slug <$> rs) -> r ∈ rs -> err r = None ->
  foldl collect out rs !! slug r = Some r.
Proof.
  revert out. induction rs as [|r' rs IH]; intros out Hnd Hr He.
  { by apply elem_of_nil in Hr. }
  rewrite fmap_cons in Hnd. apply NoDup_cons in Hnd as [Hnew Hnd].
  simpl. apply elem_of_cons in Hr as [->|Hr]; [|by apply IH].
  rewrite collect_untouched.
  - unfold collect. by rewrite He, lookup_insert_eq.
  - intros r Hr Hs. exfalso. apply Hnew. rewrite <- Hs.
    apply list_elem_of_fmap. eauto.
Qed.

(** X12: the order in which the workers' results arrive does not matter.
    For posts with pairwise distinct slugs (as discovery returns them),
    [scrapeAll] gives the mapping that collecting the results in listing
    order gives: under the slug of each post, its own result when the
    scrape succeeded, and nothing when it failed. *)
Theorem scrapeAll_arrival_order_irrelevant (e : env) (posts : list blogPost) :
  (forall l, Permutation (arrival e l) l) ->
  NoDup (Slug <$> posts) ->
  scrapeAll e posts = foldl collect ∅ (downloadAndConvertPost e <$> posts) /\
  (forall p, p ∈ posts ->
     scrapeAll e posts !! Slug p
     = match err (downloadAndConvertPost e p) with
       | None => Some (downloadAndConvertPost e p)
       | Some _ => None
       end).
Proof.
  intros Hperm Hnd.
  assert (NoDup (slug <$> (downloadAndConvertPost e <$> posts))) as Hnd1.
  { rewrite <- list_fmap_compose.
    by rewrite (list_fmap_ext _ Slug) by (intros; apply download_slug). }
  assert (NoDup (slug <$> arrival e (downloadAndConvertPost e <$> posts)))
    as Hnd2 by (by rewrite Hperm).
  assert (forall p, p ∈ posts ->
     scrapeAll e posts !! Slug p
     = match err (downloadAndConvertPost e p) with
       | None => Some (downloadAndConvertPost e p)
       | Some _ => None
       end) as Hlook.
  { intros p Hp. unfold scrapeAll.
    change (map (downloadAndConvertPost e) posts)
      with (downloadAndConvertPost e <$> posts).
    destruct (err (downloadAndConvertPost e p)) as [msg|] eqn:He.
    - rewrite collect_untouched; [done|].
      intros r Hr Hs. rewrite Hperm in Hr.
      apply list_elem_of_fmap in Hr as (p' & -> & Hp').
      rewrite download_slug in Hs.
      rewrite (same_slug_same_post posts p' p); [by rewrite He|done..].
    - rewrite <- (download_slug e p). apply collect_found; [done| |done].
      rewrite Hperm. apply list_elem_of_fmap. eauto. }
  split; [|exact Hlook].
  apply map_eq. intros sl. unfold scrapeAll.
  change (map (downloadAndConvertPost e) posts)
    with (downloadAndConvertPost e <$> posts).
  destruct (foldl collect ∅ (downloadAndConvertPost e <$> posts) !! sl)
    as [r|] eqn:Hr.
  - apply collect_lookup in Hr as [Hr|(Hr & He & <-)];
      [by rewrite lookup_empty in Hr|].
    apply collect_found; [done| |done]. by rewrite Hperm.
  - destruct (foldl collect ∅
                (arrival e (downloadAndConvertPost e <$> posts)) !! sl)
      as [r'|] eqn:Hr'; [|done].
    apply collect_lookup in Hr' as [Hr'|(Hr' & He & <-)];
      [by rewrite lookup_empty in Hr'|].
    rewrite Hperm in Hr'.
    by rewrite (collect_found _ ∅ r' Hnd1 Hr' He) in Hr.
Qed.

Lemma scrapeAll_arrival_order_irrelevant_witness :
  let e := Demo.world Demo.sitePostCDown in
  let posts := [Demo.post "post-a"; Demo.post "post-c"; Demo.post "post-b"] in
  scrapeAll e posts = foldl collect ∅ (downloadAndConvertPost e <$> posts).
Proof.
  cbn zeta.
  apply (scrapeAll_arrival_order_irrelevant (Demo.world Demo.sitePostCDown)).
  - intros l. cbn. symmetry. apply Permutation_rev.
  - cbn. repeat constructor; rewrite ?elem_of_cons, ?elem_of_nil;
      intros H; repeat destruct H as [H|H]; done.
Defined.

(** X13: a scrape result is never half filled.  Its slug is the slug of
    the post.  When the error is set, title, URL, date and Markdown are
    empty; when it is nil, the URL is the URL of the post, the title is the
    trimmed text of the first h1 or else the title of the post, and it is
    not empty when the post has a title. *)
Theorem scrape_result_all_or_nothing (e : env) (p : blogPost) :
  let r := downloadAndConvertPost e p in
  slug r = Slug p /\
  (err r <> None ->
   title r = EmptyString /\ url r = EmptyString /\ date r = EmptyString /\
   markdown r = EmptyString) /\
  (err r = None ->
   url r = URL p /\
   (Title p <> EmptyString -> title r <> EmptyString) /\
   (title r = Title p \/
    exists doc, NewDocument e (fetchPage e (URL p)).1 = inl doc /\
                title r = TrimSpace (hd EmptyString (h1s doc)))).
Proof.
  cbn zeta. split; [apply download_slug|].
  unfold downloadAndConvertPost.
  destruct (fetchPage e (URL p)) as [html [msg|]]; [by split|].
  cbn [fst]. destruct (NewDocument e html) as [doc|msg]; [|by split].
  cbn zeta. destruct (ConvertString e _) as [md|msg]; [|by split].
  cbn. split; [done|]. intros _. split; [done|].
  destruct (isEmpty (TrimSpace (hd EmptyString (h1s doc)))) eqn:Hh.
  - split; [done|]. by left.
  - split; [intros _; by apply isEmpty_false|]. right. eauto.
Qed.

(** ** The clean-up pipeline *)

Lemma starG_newlines (prev : option ascii) (s : string) :
  starG isNewline (mt Eps (fun _ rest => Some rest)) prev s
  = Some (dropNewlines s).
Proof.
  revert prev. induction s as [|c s IH]; intros prev; simpl; [done|].
  destruct (isNewline c); [|done]. by rewrite IH.
Qed.

Lemma matchAt_excess (prev : option ascii) (s : string) :
  matchAt reExcessBlanks prev s
  = if Nat.leb 3 (leadingNewlines s) then Some (dropNewlines s) else None.
Proof.
  unfold matchAt, reExcessBlanks. cbn [cat mt].
  destruct s as [|c1 s]; [done|]. cbn [leadingNewlines dropNewlines].
  destruct (isNewline c1); [|done].
  destruct s as [|c2 s]; [done|]. cbn [leadingNewlines dropNewlines].
  destruct (isNewline c2); [|done].
  destruct s as [|c3 s]; [done|]. cbn [leadingNewlines dropNewlines].
  destruct (isNewline c3); [|done].
  cbn [Nat.leb]. apply starG_newlines.
Qed.

Lemma matchFrom_excess (prev : option ascii) (s : string) :
  matchFrom reExcessBlanks prev s = negb (noTripleNewline s).
Proof.
  revert prev. induction s as [|c s IH]; intros prev.
  - cbn [matchFrom]. by rewrite matchAt_excess.
  - cbn [matchFrom noTripleNewline]. rewrite matchAt_excess, IH.
    rewrite Nat.ltb_antisym, negb_andb, negb_involutive.
    by destruct (Nat.leb 3 (leadingNewlines (String c s))).
Qed.

Lemma dropNewlines_length (s : string) :
  String.length s - String.length (dropNewlines s) = leadingNewlines s /\
  String.length (dropNewlines s) <= String.length s.
Proof.
  induction s as [|c s [IH1 IH2]]; [done|]. cbn.
  destruct (isNewline c); cbn; lia.
Qed.

Lemma collapse_newlines (s : string) :
  forall prev skip,
    skip <= leadingNewlines s ->
    let out := replaceFrom reExcessBlanks (nl ++ nl) prev skip s in
    noTripleNewline out = true /\
    leadingNewlines out <= leadingNewlines s - skip /\
    leadingNewlines out <= 2.
Proof.
  induction s as [|c s IH]; intros prev skip Hskip; [cbn; repeat split; lia|].
  cbn zeta. cbn [replaceFrom]. destruct skip as [|k].
  - rewrite matchAt_excess.
    destruct (Nat.leb 3 (leadingNewlines (String c s))) eqn:H3.
    + apply Nat.leb_le in H3.
      rewrite (proj1 (dropNewlines_length (String c s))).
      cbn [leadingNewlines] in *. destruct (isNewline c) eqn:Hc; [|lia].
      destruct (IH (Some c) (leadingNewlines s) (le_n _)) as (Hno & Hle & _).
      set (out := replaceFrom _ _ _ _ s) in *.
      change ((nl ++ nl) ++ out)
        with (String newline (String newline out)).
      cbn [noTripleNewline leadingNewlines].
      replace (isNewline newline) with true by reflexivity.
      assert (leadingNewlines out = 0) as H0 by lia.
      rewrite H0, Hno.
      destruct out as [|d out']; cbn in *; [repeat split; lia|].
      destruct (isNewline d); [lia|]. cbn. repeat split; lia.
    + apply Nat.leb_gt in H3.
      destruct (IH (Some c) 0 (Nat.le_0_l _)) as (Hno & Hle & H2).
      set (out := replaceFrom _ _ _ _ s) in *.
      cbn [noTripleNewline leadingNewlines] in *. rewrite Hno.
      destruct (isNewline c); [|cbn; repeat split; lia].
      rewrite andb_true_r. split; [apply Nat.ltb_lt; lia|]. lia.
  - cbn [leadingNewlines] in Hskip |- *.
    destruct (isNewline c); [|lia].
    destruct (IH (Some c) k ltac:(lia)) as (Hno & Hle & H2).
    repeat split; [done|lia|done].
Qed.

Lemma noTriple_tail (c : ascii) (s : string) :
  noTripleNewline (String c s) = true -> noTripleNewline s = true.
Proof. cbn [noTripleNewline]. by intros [_ ?]%andb_true_iff. Qed.

Lemma leadingNewlines_app (a b : string) :
  leadingNewlines a <= leadingNewlines (a ++ b).
Proof.
  induction a as [|c a IH]; [cbn; lia|]. rewrite sapp_cons. cbn.
  destruct (isNewline c); lia.
Qed.

Lemma noTriple_prefix (a b : string) :
  noTripleNewline (a ++ b) = true -> noTripleNewline a = true.
Proof.
  induction a as [|c a IH]; [done|]. rewrite sapp_cons.
  cbn [noTripleNewline]. intros [H1 H2]%andb_true_iff.
  apply andb_true_iff. split; [|by apply IH].
  apply Nat.ltb_lt in H1. apply Nat.ltb_lt.
  pose proof (leadingNewlines_app (String c a) b) as H.
  rewrite sapp_cons in H. lia.
Qed.

Lemma noTriple_ws_head (s r : string) :
  ws_head s = Some r -> noTripleNewline s = true -> noTripleNewline r = true.
Proof.
  unfold ws_head. intros H Hs.
  destruct s as [|c [|d [|x s3]]]; repeat case_match; simplify_eq;
    eauto using noTriple_tail.
Qed.

Lemma noTriple_trimLeft (s : string) :
  noTripleNewline s = true -> noTripleNewline (trimLeft s) = true.
Proof.
  unfold trimLeft. generalize (String.length s) as n. intros n. revert s.
  induction n as [|n IH]; intros s Hs; [done|]. simpl.
  destruct (ws_head s) as [r|] eqn:Hr; [|done].
  apply IH. by apply (noTriple_ws_head s).
Qed.

Lemma noTriple_TrimSpace (s : string) :
  noTripleNewline s = true -> noTripleNewline (TrimSpace s) = true.
Proof.
  intros Hs. unfold TrimSpace. apply noTriple_trimLeft in Hs.
  destruct (trimRight_split (trimLeft s)) as (v & Hv & _).
  rewrite Hv in Hs. by apply noTriple_prefix in Hs.
Qed.

(** X14: what cleaned Markdown always looks like: it has no white space
    at either end (trimming it again changes nothing) and never three
    newlines in a row, that is, at most one blank line between two lines;
    a second blank-line pass finds nothing to do. *)
Theorem cleanMarkdown_trimmed_single_blank_lines (raw title : string) :
  let s := cleanMarkdown raw title in
  TrimSpace s = s /\
  ws_head s = None /\
  MatchString reExcessBlanks s = false /\
  ReplaceAllString reExcessBlanks s (nl ++ nl) = s.
Proof.
  cbn zeta.
  assert (MatchString reExcessBlanks (cleanMarkdown raw title) = false) as Hm.
  { unfold MatchString. rewrite matchFrom_excess.
    apply negb_false_iff. unfold cleanMarkdown. apply noTriple_TrimSpace.
    unfold ReplaceAllString at 1.
    apply (collapse_newlines _ None 0 (Nat.le_0_l _)). }
  split; [unfold cleanMarkdown; apply TrimSpace_idem|].
  split; [unfold cleanMarkdown, TrimSpace; apply trimRight_head, trimLeft_head|].
  split; [exact Hm|]. by apply ReplaceAllString_no_match.
Qed.

(** ** The content extractor *)

(** X15: the content region is the first candidate that is large enough:
    [pickRegion] returns the HTML of the first selector, in the order of
    the list, whose region has more than 100 bytes, and the empty string
    (so that the page body is taken) when no selector has one; a region of
    100 bytes or less is never returned. *)
Theorem pickRegion_first_large_region (doc : document) (sels : list string) :
  (pickRegion doc sels = EmptyString /\
   forall sel h, sel ∈ sels -> region doc sel = Some h ->
                 String.length h <= 100) \/
  (exists pre sel post h,
     sels = (pre ++ sel :: post)%list /\ region doc sel = Some h /\
     100 < String.length h /\ pickRegion doc sels = h /\
     forall sel' h', sel' ∈ pre -> region doc sel' = Some h' ->
                     String.length h' <= 100).
Proof.
  induction sels as [|sel sels IH]; cbn [pickRegion].
  { left. split; [done|]. intros sel h Hs. by apply elem_of_nil in Hs. }
  destruct (region doc sel) as [h|] eqn:Hr.
  - destruct (Nat.ltb 100 (String.length h)) eqn:Hl.
    + right. exists [], sel, sels, h. apply Nat.ltb_lt in Hl.
      repeat split; try done. intros ? ? Hs. by apply elem_of_nil in Hs.
    + apply Nat.ltb_ge in Hl. destruct IH as [[He Hall]|IH].
      * left. split; [done|]. intros sel' h' Hs Hr'.
        apply elem_of_cons in Hs as [->|Hs]; [|by eapply Hall].
        rewrite Hr in Hr'. by injection Hr' as <-.
      * right. destruct IH as (pre & s & post & h0 & -> & ? & ? & ? & Hpre).
        exists (sel :: pre), s, post, h0. repeat split; try done.
        intros sel' h' Hs Hr'.
        apply elem_of_cons in Hs as [->|Hs]; [|by eapply Hpre].
        rewrite Hr in Hr'. by injection Hr' as <-.
  - destruct IH as [[He Hall]|IH].
    + left. split; [done|]. intros sel' h' Hs Hr'.
      apply elem_of_cons in Hs as [->|Hs]; [congruence|by eapply Hall].
    + right. destruct IH as (pre & s & post & h0 & -> & ? & ? & ? & Hpre).
      exists (sel :: pre), s, post, h0. repeat split; try done.
      intros sel' h' Hs Hr'.
      apply elem_of_cons in Hs as [->|Hs]; [congruence|by eapply Hpre].
Qed.

(** X16: a date found by the text scan is a long-form date: the scan
    returns the empty string, or the trimmed text of one of the nodes, and
    that text is matched by the long-date pattern; so for a page without a
    time element the date is empty or in the long form. *)
Theorem scanned_date_is_long_form (doc : document) :
  (scanDate (textNodes doc) = EmptyString \/
   (MatchString reDateText (scanDate (textNodes doc)) = true /\
    exists t, t ∈ textNodes doc /\ scanDate (textNodes doc) = TrimSpace t)) /\
  (times doc = [] ->
   extractDate doc = EmptyString \/
   MatchString reDateText (extractDate doc) = true).
Proof.
  assert (forall texts,
            scanDate texts = EmptyString \/
            (MatchString reDateText (scanDate texts) = true /\
             exists t, t ∈ texts /\ scanDate texts = TrimSpace t)) as Hscan.
  { induction texts as [|t texts IH]; [by left|]. cbn [scanDate].
    destruct (MatchString reDateText (TrimSpace t)) eqn:Hm.
    - right. split; [done|]. exists t. split; [left|done].
    - destruct IH as [IH|(IH & t' & Ht' & Heq)]; [by left|].
      right. split; [done|]. exists t'. split; [by right|done]. }
  split; [apply Hscan|].
  intros Ht. unfold extractDate. rewrite Ht. cbn.
  destruct (Hscan (textNodes doc)) as [H|[H _]]; auto.
Qed.

(** X19: a response whose body breaks off is a failure like any other:
    whenever the fetch of the article returns an error (no request, no
    response, or a body read only in part), the scrape result carries
    that error and nothing of what was read; on a listing page the same
    error ends the discovery with the page number in front. *)
Theorem fetch_error_fails_the_item (e : env) (msg : string) :
  (forall p, (fetchPage e (URL p)).2 = Some msg ->
     downloadAndConvertPost e p
     = {| slug := Slug p; title := EmptyString; url := EmptyString;
          date := EmptyString; markdown := EmptyString; err := Some msg |}) /\
  (forall status body p,
     http e (URL p) = Response status body (Some msg) ->
     err (downloadAndConvertPost e p) = Some msg /\
     markdown (downloadAndConvertPost e p) = EmptyString) /\
  (forall fuel page st,
     (fetchPage e (pageURL page)).2 = Some msg ->
     listingLoop e (S fuel) page st
     = (st.1, Failed ("page " ++ dec page ++ ": " ++ msg))).
Proof.
  split; [|split].
  - intros p H. unfold downloadAndConvertPost.
    destruct (fetchPage e (URL p)) as [html [m|]]; [|done].
    cbn in H. by injection H as ->.
  - intros status body p H. unfold downloadAndConvertPost.
    by rewrite (fetchPage_response _ _ _ _ _ H).
  - intros fuel page st H. simpl.
    destruct (fetchPage e (pageURL page)) as [html [m|]]; [|done].
    cbn in H. by injection H as ->.
Qed.

(** X18: with the force flag the old ledger is dropped: after a forced
    run that ended with status 0, the ledger holds exactly the slugs of the
    discovered posts whose scrape succeeded in this run, and these are
    exactly the slugs of the sections of the rebuilt archive. *)
Theorem forced_run_ledger_is_this_run (e : env) (fuel : nat) (fs : fsState)
    (sl : string) :
  (forall l, Permutation (arrival e l) l) ->
  let r := main e fuel true fs in
  exit r = Exit0 ->
  (sl ∈ dom (ledger r) <->
   exists p, p ∈ discovered r /\ Slug p = sl /\
             err (downloadAndConvertPost e p) = None) /\
  (sl ∈ dom (ledger r) <-> sl ∈ slug <$> sections r) /\
  selected r = discovered r.
Proof.
  intros Hperm r Hexit. subst r.
  destruct (main_exit0 _ _ _ _ Hexit) as (allPosts & Hg & Hne).
  rewrite (main_done e fuel true fs allPosts Hg Hne).
  cbn [selectToScrape fst snd].
  destruct (proceed_facts e true fs allPosts allPosts ∅ Hperm)
    as (Hsel & _ & Hled & _).
  destruct (proceed_fetches e true fs allPosts allPosts ∅) as (_ & _ & Hdisc).
  rewrite Hled, Hdisc, Hsel, updateCheckpoint_dom, dom_empty_L, union_empty_r_L.
  split; [by apply scrapeAll_dom|]. split; [|done].
  unfold proceed. destruct allPosts as [|p0 ps] eqn:Hall; [done|].
  rewrite <- Hall. cbn [sections]. by rewrite sections_slugs.
Qed.

Lemma forced_run_ledger_is_this_run_witness :
  let r := main (Demo.world Demo.sitePostCDown) 5 true
             {| checkpointFile := Some (Demo.encode Demo.ledgerAB);
                archiveFile := Some "old archive" |} in
  "post-c" ∈ dom (ledger r) <-> "post-c" ∈ slug <$> sections r.
Proof.
  cbn zeta.
  refine (proj1 (proj2 (forced_run_ledger_is_this_run
            (Demo.world Demo.sitePostCDown) 5 _ "post-c" _ _))).
  - intros l. cbn. symmetry. apply Permutation_rev.
  - vm_compute. reflexivity.
Defined.

(** ** The clean-up pipeline never adds text *)

Lemma sapp_length (a b : string) :
  String.length (a ++ b) = String.length a + String.length b.
Proof.
  induction a as [|c a IH]; [done|]. rewrite sapp_cons. cbn. by rewrite IH.
Qed.

Lemma replaceFrom_length (r : re) (repl : string) :
  (forall prev s rest,
     matchAt r prev s = Some rest ->
     String.length s - String.length rest = 0 \/
     String.length repl <= String.length s - String.length rest) ->
  forall s prev skip,
    skip <= String.length s ->
    String.length (replaceFrom r repl prev skip s) + skip <= String.length s.
Proof.
  intros Hr. induction s as [|c s IH]; intros prev skip Hskip.
  { cbn in *. lia. }
  cbn [replaceFrom]. destruct skip as [|k].
  - destruct (matchAt r prev (String c s)) as [rest|] eqn:Hm.
    + destruct (String.length (String c s) - String.length rest) as [|n] eqn:Hn.
      * specialize (IH (Some c) 0 (Nat.le_0_l _)). cbn in *. lia.
      * destruct (Hr _ _ _ Hm) as [H0|Hle]; [lia|].
        assert (n <= String.length s) as Hns by (cbn in Hn; lia).
        specialize (IH (Some c) n Hns). rewrite sapp_length. cbn in *. lia.
    + specialize (IH (Some c) 0 (Nat.le_0_l _)). cbn in *. lia.
  - cbn in Hskip. specialize (IH (Some c) k ltac:(lia)). cbn. lia.
Qed.

Lemma ReplaceAllString_erase_length (r : re) (s : string) :
  String.length (ReplaceAllString r s EmptyString) <= String.length s.
Proof.
  pose proof (replaceFrom_length r EmptyString) as H.
  specialize (H ltac:(intros; right; cbn; lia) s None 0 (Nat.le_0_l _)).
  unfold ReplaceAllString. lia.
Qed.

Lemma trimLeft_length (s : string) :
  String.length (trimLeft s) <= String.length s.
Proof.
  unfold trimLeft. generalize (String.length s) at 1 as n. intros n. revert s.
  induction n as [|n IH]; intros s; [done|]. simpl.
  destruct (ws_head s) as [r|] eqn:Hr; [|done].
  apply ws_head_shorter in Hr. specialize (IH r). lia.
Qed.

Lemma TrimSpace_length (s : string) :
  String.length (TrimSpace s) <= String.length s.
Proof.
  unfold TrimSpace. pose proof (trimLeft_length s) as Hl.
  destruct (trimRight_split (trimLeft s)) as (v & Hv & _).
  rewrite Hv, sapp_length in Hl. lia.
Qed.

Lemma ReplaceAllString_excess_length (s : string) :
  String.length (ReplaceAllString reExcessBlanks s (nl ++ nl))
  <= String.length s.
Proof.
  pose proof (replaceFrom_length reExcessBlanks (nl ++ nl)) as H.
  unfold ReplaceAllString.
  assert (forall prev s0 rest,
            matchAt reExcessBlanks prev s0 = Some rest ->
            String.length s0 - String.length rest = 0 \/
            String.length (nl ++ nl)
            <= String.length s0 - String.length rest) as Hm.
  { intros prev s0 rest Hm. rewrite matchAt_excess in Hm.
    destruct (Nat.leb 3 (leadingNewlines s0)) eqn:H3; [|discriminate].
    injection Hm as <-. apply Nat.leb_le in H3.
    rewrite (proj1 (dropNewlines_length s0)). right.
    change (String.length (nl ++ nl)) with 2. lia. }
  specialize (H Hm s None 0 (Nat.le_0_l _)). lia.
Qed.

(** X20: the clean-up only removes: cleaned Markdown is never longer than
    the raw Markdown it was made from, whatever the title. *)
Theorem cleanMarkdown_never_longer (raw title : string) :
  String.length (cleanMarkdown raw title) <= String.length raw.
Proof.
  unfold cleanMarkdown.
  etrans; [apply TrimSpace_length|].
  etrans; [apply ReplaceAllString_excess_length|].
  repeat (etrans; [apply ReplaceAllString_erase_length|]). done.
Qed.

(** ** Dates *)

Lemma orElse_None_r (a : option string) : orElse a None = a.
Proof. by destruct a. Qed.

Lemma pad4_of_to_lu (y : nat) : pad4_of y (Unsigned.to_lu y) = pad4 y.
Proof. unfold pad4_of, pad4, dec. by rewrite Unsigned.to_uint_alt. Qed.

Lemma yearsOK_sound (k : nat) :
  forall y, yearsOK k y (Unsigned.to_lu y) = true ->
  forall j, j < k -> isYear4 (pad4 (y + j)) = true.
Proof.
  induction k as [|k IH]; intros y H j Hj; [lia|].
  cbn [yearsOK] in H. apply andb_true_iff in H as [H0 H1].
  destruct j as [|j].
  - by rewrite Nat.add_0_r, <- pad4_of_to_lu.
  - rewrite <- Unsigned.to_lu_succ in H1.
    replace (y + S j) with (S y + j) by lia. apply IH; [done|lia].
Qed.

Lemma pad4_digits (yh yl : nat) :
  yh <= 99 -> yl <= 99 -> isYear4 (pad4 (100 * yh + yl)) = true.
Proof.
  intros Hh Hl.
  assert (yearsOK (100 * 100) 0 (Unsigned.to_lu 0) = true) as H
    by (vm_compute; reflexivity).
  apply (yearsOK_sound _ 0 H (100 * yh + yl)). lia.
Qed.

Lemma dec_day (d : nat) : 1 <= d <= 31 -> isDay (dec d) = true.
Proof.
  intros Hd.
  assert (forallb (fun d => isDay (dec d)) (seq 1 31) = true) as H
    by (vm_compute; reflexivity).
  rewrite forallb_forall in H. apply H, in_seq. lia.
Qed.

Lemma month_matches (m : nat) (k : cont) (prev : option ascii) (t : string) :
  1 <= m <= 12 ->
  exists q, mt monthName k prev (nth (m - 1) longMonthNames EmptyString ++ t)
            = k q t.
Proof.
  intros Hm.
  assert (m = 1 \/ m = 2 \/ m = 3 \/ m = 4 \/ m = 5 \/ m = 6 \/ m = 7 \/
          m = 8 \/ m = 9 \/ m = 10 \/ m = 11 \/ m = 12) as H by lia.
  repeat destruct H as [H|H]; subst m;
    cbn [nth Nat.sub longMonthNames]; rewrite ?sapp_cons;
    change (EmptyString ++ t) with t;
    unfold monthName; cbn; rewrite ?orElse_None_r; eauto.
Qed.

Lemma longDate_matches (m : nat) (dd yyyy : string) :
  1 <= m <= 12 -> isDay dd = true -> isYear4 yyyy = true ->
  MatchString reDateText
    (nth (m - 1) longMonthNames EmptyString ++ " " ++ dd ++ ", " ++ yyyy)
  = true.
Proof.
  intros Hm Hd Hy. unfold MatchString.
  assert (is_Some (matchAt reDateText None
            (nth (m - 1) longMonthNames EmptyString ++ " " ++ dd ++ ", "
             ++ yyyy))) as [rest Hrest].
  2:{ destruct (nth (m - 1) longMonthNames EmptyString ++ " " ++ dd ++ ", "
                ++ yyyy); cbn [matchFrom]; by rewrite Hrest. }
  unfold matchAt, reDateText, longDate. cbn [cat mt].
  match goal with
  | |- is_Some (mt monthName ?K None _) =>
      destruct (month_matches m K None (" " ++ dd ++ ", " ++ yyyy) Hm)
        as [q ->]
  end.
  destruct yyyy as [|a [|b [|c [|d [|? ?]]]]]; try discriminate.
  cbn [isYear4] in Hy.
  apply andb_true_iff in Hy as [[[Ha Hb]%andb_true_iff Hc]%andb_true_iff Hd'].
  destruct dd as [|x [|y [|? ?]]]; try discriminate; cbn [isDay] in Hd.
  - change (" " ++ String x EmptyString ++ ", "
            ++ String a (String b (String c (String d EmptyString))))
      with (String " " (String x (String "," (String " "
              (String a (String b (String c (String d EmptyString)))))))).
    cbn -[digit]. rewrite Hd. cbn -[digit].
    replace (digit ",") with false by reflexivity.
    cbn -[digit]. rewrite Ha, Hb, Hc, Hd'. cbn. eauto.
  - apply andb_true_iff in Hd as [Hx Hy'].
    change (" " ++ String x (String y EmptyString) ++ ", "
            ++ String a (String b (String c (String d EmptyString))))
      with (String " " (String x (String y (String "," (String " "
              (String a (String b (String c (String d EmptyString))))))))).
    cbn -[digit]. rewrite Hx, Hy'. cbn -[digit].
    rewrite Ha, Hb, Hc, Hd'. cbn. eauto.
Qed.

Lemma num2_bound (a b : ascii) (n : nat) : num2 a b = Some n -> n <= 99.
Proof.
  unfold num2, digitVal, digit, between. intros H.
  repeat case_match; simplify_eq.
  repeat match goal with
         | H : _ && _ = true |- _ => apply andb_true_iff in H as [? ?]
         | H : Nat.leb _ _ = true |- _ => apply Nat.leb_le in H
         end.
  lia.
Qed.

Lemma daysIn_bound (m y : nat) : daysIn m y <= 31.
Proof.
  unfold daysIn. repeat case_match; lia.
Qed.

Lemma parseDate_range (s : string) (y m d : nat) :
  parseDate s = Some (y, m, d) ->
  (exists yh yl, y = 100 * yh + yl /\ yh <= 99 /\ yl <= 99) /\
  1 <= m <= 12 /\ 1 <= d <= daysIn m y.
Proof.
  unfold parseDate. intros H.
  repeat case_match; simplify_eq.
  repeat match goal with
         | H : _ && _ = true |- _ => apply andb_true_iff in H as [? ?]
         | H : Nat.leb _ _ = true |- _ => apply Nat.leb_le in H
         | H : num2 _ _ = Some _ |- _ => apply num2_bound in H
         end.
  split; [eauto|]. lia.
Qed.

(** X17: a date that [time.Parse] accepts is always given back in the
    long form that the text scan looks for: for a datetime attribute that
    parses, the reformatted date matches the long-date pattern (a month
    name, a day of one or two digits, a comma and a year of four digits),
    and the day exists in that month. *)
Theorem parsed_date_is_long_form (dt : string) (y m d : nat) :
  parseDate dt = Some (y, m, d) ->
  MatchString reDateText (formatLong (y, m, d)) = true /\
  1 <= m <= 12 /\ 1 <= d <= daysIn m y /\ daysIn m y <= 31.
Proof.
  intros H.
  apply parseDate_range in H as ((yh & yl & -> & Hh & Hl) & Hm & Hd).
  pose proof (daysIn_bound m (100 * yh + yl)) as Hb.
  split; [|done].
  unfold formatLong.
  apply longDate_matches; [done|apply dec_day; lia|by apply pad4_digits].
Qed.

Lemma parsed_date_is_long_form_witness :
  formatLong (2024, 2, 29) = "February 29, 2024" /\
  MatchString reDateText (formatLong (2024, 2, 29)) = true.
Proof.
  split; [reflexivity|].
  exact (proj1 (parsed_date_is_long_form "2024-02-29" 2024 2 29 eq_refl)).
Defined.
